(** * TinyTask for Linux: the capture and replay engine of [tinytask_enhanced.py]

    A shallow embedding of [SafeKeyParser], [EnhancedRecorder] with [save]
    and [load], [EnhancedPlayer], [DisplayServerInfo] and the script that
    [MacroCompiler] writes, and the properties of the specification stated
    over it.

    Conventions of the embedding.
    - Python [str] is [string], holding the UTF-8 bytes of the text: [len]
      and indexing count characters (code points), not bytes.
    - Python [int] is [Z]; a Python [float] that holds a time (a reading of
      [time.time()], an event timestamp, a speed multiplier, a delay) is an
      exact rational [Q].
    - A raised exception is a value of [exn]; code that can raise returns
      [res].
    - The pynput library is not part of the repository: what the code asks of
      it (attribute lookup on [Key] and [mouse.Button], [KeyCode.from_char],
      [str] of a key, the controllers' injection calls) is a parameter.
    - The json library is not part of the repository either: a file holds
      a JSON document, which [json.dump] writes and [json.load] reads by the
      library's conversion tables. A float is a finite number.
    - Time is a clock in the state. [time.time()] reads it, [time.sleep(d)]
      advances it by [d], every other statement takes no time. The calls
      that another thread makes on the player ([stop], [pause], [resume])
      are a list of commands, each with the clock reading at which it is
      made; its attribute write is seen by the playback thread from then
      on.
    - A loop that need not end (the wait of a paused player) takes fuel. *)

From Stdlib Require Import ZArith QArith Qminmax Lqa Lia List Sorted String Ascii
  Bool.
Import ListNotations.

Open Scope string_scope.

(** ** Exceptions and fallible results *)

Inductive exn : Type :=
| KeyError (k : string)
| IndexError
| AttributeError (name : string)
| TypeError
| ZeroDivisionError
| LibraryError (msg : string).

Inductive res (A : Type) : Type :=
| Ok (a : A)
| Raise (e : exn).
Arguments Ok {A} a.
Arguments Raise {A} e.

Definition res_bind {A B} (r : res A) (k : A -> res B) : res B :=
  match r with
  | Ok a => k a
  | Raise e => Raise e
  end.

(** ** The string methods the code calls *)

Module PyStr.

(** [s.startswith(p)] *)
Definition startswith (p s : string) : bool := String.prefix p s.

(** [s.endswith(p)] *)
Definition endswith (p s : string) : bool :=
  let n := String.length s in
  let m := String.length p in
  if (m <=? n)%nat then String.eqb (String.substring (n - m) m s) p else false.

(** [s.split(c)] for a one-character separator: never the empty list. *)
Fixpoint split (c : ascii) (s : string) : list string :=
  match s with
  | EmptyString => [EmptyString]
  | String a r =>
      if Ascii.eqb a c then EmptyString :: split c r
      else match split c r with
           | h :: t => String a h :: t
           | [] => [String a EmptyString]
           end
  end.

(** [l[i]] for [i >= 0] *)
Definition index {A} (l : list A) (i : nat) : res A :=
  match nth_error l i with
  | Some a => Ok a
  | None => Raise IndexError
  end.

(** [l[-1]] *)
Definition index_last {A} (l : list A) : res A :=
  match rev l with
  | a :: _ => Ok a
  | [] => Raise IndexError
  end.

(** A byte [10xxxxxx] of UTF-8 continues the character begun before it. *)
Definition is_continuation (a : ascii) : bool :=
  match a with
  | Ascii _ _ _ _ _ _ b6 b7 => b7 && negb b6
  end.

(** The characters of a string, each with its bytes. *)
Fixpoint chars (s : string) : list string :=
  match s with
  | EmptyString => []
  | String a r =>
      match r with
      | EmptyString => [String a EmptyString]
      | String a' _ =>
          if is_continuation a' then
            match chars r with
            | c :: cs => String a c :: cs
            | [] => [String a EmptyString]
            end
          else String a EmptyString :: chars r
      end
  end.

(** [len(s)] *)
Definition len (s : string) : nat := List.length (chars s).

(** [s[i]], a one-character string *)
Definition char_at (s : string) (i : nat) : res string :=
  match nth_error (chars s) i with
  | Some c => Ok c
  | None => Raise IndexError
  end.

(** [s] is one character: a byte that begins one, and the bytes that
    continue it. *)
Definition is_char (s : string) : bool :=
  match s with
  | EmptyString => false
  | String a r =>
      negb (is_continuation a)
      && forallb is_continuation (list_ascii_of_string r)
  end.

Definition contains (c : ascii) (s : string) : bool :=
  existsb (Ascii.eqb c) (list_ascii_of_string s).

End PyStr.

(** ** [SafeKeyParser] *)

(** What the code uses of pynput's classes: the attributes of the class
    [Key] (its members, the special keys, among them), [KeyCode.from_char],
    and the attributes of the class [mouse.Button]. *)
Class Pynput : Type := {
  KeyAttr : Type;
  Key_getattr : string -> option KeyAttr;
  KeyCodeT : Type;
  KeyCode_from_char : string -> res KeyCodeT;
  ButtonT : Type;
  Button_getattr : string -> option ButtonT
}.

(** The values [parse_key] returns: an attribute of [Key], a Python string
    (the middle character of a quoted symbol, or the symbol itself), or a
    [KeyCode]. *)
Inductive parsed {PL : Pynput} : Type :=
| PAttr (a : KeyAttr)
| PStr (s : string)
| PKeyCode (k : KeyCodeT).

Module SafeKeyParser.

Section Parser.
Context {PL : Pynput}.

(** [key_str.split('.')[1]] *)
Definition key_name (key_str : string) : res string :=
  PyStr.index (PyStr.split "." key_str) 1.

(** [getattr(Key, key_name, key_str)] *)
Definition getattr_Key (name default : string) : parsed :=
  match Key_getattr name with
  | Some a => PAttr a
  | None => PStr default
  end.

Definition parse_key (key_str : string) : res parsed :=
  if PyStr.startswith "Key." key_str then
    res_bind (key_name key_str) (fun name =>
    Ok (getattr_Key name key_str))
  else if PyStr.startswith "'" key_str && PyStr.endswith "'" key_str
          && (PyStr.len key_str =? 3)%nat then
    res_bind (PyStr.char_at key_str 1) (fun c => Ok (PStr c))
  else
    match KeyCode_from_char key_str with
    | Ok k => Ok (PKeyCode k)
    | Raise _ => Ok (PStr key_str)
    end.

End Parser.

(** The keys the listener delivers: a member of the enumeration [Key], or a
    [KeyCode] with its virtual key code and its character, either of which
    can be [None]. *)
Inductive pykey : Type :=
| SpecialKey (name : string)
| KeyCode (vk : option Z) (char : option string).

Section Printer.
(** [str(key)], pynput's. *)
Variable str_key : pykey -> string.

(** [hasattr(key, 'char') and key.char]: a member of [Key] has no attribute
    [char]; [None] and the empty string are false. *)
Definition has_char (key : pykey) : option string :=
  match key with
  | KeyCode _ (Some c) => if (String.length c =? 0)%nat then None else Some c
  | _ => None
  end.

Definition key_to_string (key : pykey) : string :=
  match has_char key with
  | Some c => "'" ++ c ++ "'"
  | None => str_key key
  end.

End Printer.

End SafeKeyParser.

(** ** The event model *)

(** The values of an event's [data] dictionary. *)
Inductive value : Type :=
| VInt (z : Z)
| VFloat (q : Q)
| VBool (b : bool)
| VStr (s : string).

(** An event: [{'type': ..., 'data': {...}, 'time': ...}]. *)
Record event : Type := mkEvent {
  ev_type : string;
  ev_data : list (string * value);
  ev_time : Q
}.

(** [d[k]] on a dictionary *)
Fixpoint dict_get (d : list (string * value)) (k : string) : res value :=
  match d with
  | [] => Raise (KeyError k)
  | (k', v) :: d' => if String.eqb k' k then Ok v else dict_get d' k
  end.

(** The truth value of a Python value, as [if v:] takes it. *)
Definition truthy (v : value) : bool :=
  match v with
  | VInt z => negb (z =? 0)%Z
  | VFloat q => negb (Qeq_bool q 0)
  | VBool b => b
  | VStr s => negb (String.length s =? 0)%nat
  end.

(** ** [EnhancedRecorder] *)

Module EnhancedRecorder.

Record recorder : Type := mkRecorder {
  events : list event;
  recording : bool;
  start_time : option Q;
  stop_event : bool;
  hotkey_stop : bool;
  mouse_move_threshold : Z;
  last_mouse_pos : Z * Z;
  record_mouse_moves : bool
}.

(** [__init__] *)
Definition init : recorder :=
  {| events := [];
     recording := false;
     start_time := None;
     stop_event := false;
     hotkey_stop := false;
     mouse_move_threshold := 5;
     last_mouse_pos := (0, 0)%Z;
     record_mouse_moves := true |}.

Definition set_events (r : recorder) (l : list event) : recorder :=
  {| events := l;
     recording := recording r;
     start_time := start_time r;
     stop_event := stop_event r;
     hotkey_stop := hotkey_stop r;
     mouse_move_threshold := mouse_move_threshold r;
     last_mouse_pos := last_mouse_pos r;
     record_mouse_moves := record_mouse_moves r |}.

Definition set_last_mouse_pos (r : recorder) (p : Z * Z) : recorder :=
  {| events := events r;
     recording := recording r;
     start_time := start_time r;
     stop_event := stop_event r;
     hotkey_stop := hotkey_stop r;
     mouse_move_threshold := mouse_move_threshold r;
     last_mouse_pos := p;
     record_mouse_moves := record_mouse_moves r |}.

(** [_record_event], called at clock reading [now]. [None - float] is a
    [TypeError]. *)
Definition _record_event (now : Q) (event_type : string)
    (event_data : list (string * value)) (r : recorder) : res recorder :=
  if negb (recording r) then Ok r
  else
    match start_time r with
    | None => Raise TypeError
    | Some t0 =>
        Ok (set_events r
              (events r ++ [mkEvent event_type event_data (now - t0)]))
    end.

(** [start], up to the point where it waits for [stop_event]: the listeners
    run from here on. *)
Definition start (now : Q) (r : recorder) : recorder :=
  {| events := [];
     recording := true;
     start_time := Some now;
     stop_event := false;
     hotkey_stop := false;
     mouse_move_threshold := mouse_move_threshold r;
     last_mouse_pos := last_mouse_pos r;
     record_mouse_moves := record_mouse_moves r |}.

Definition stop (r : recorder) : recorder :=
  {| events := events r;
     recording := false;
     start_time := start_time r;
     stop_event := true;
     hotkey_stop := hotkey_stop r;
     mouse_move_threshold := mouse_move_threshold r;
     last_mouse_pos := last_mouse_pos r;
     record_mouse_moves := record_mouse_moves r |}.

Section Handlers.
Variable str_key : SafeKeyParser.pykey -> string.
Variable pybutton : Type.
Variable str_button : pybutton -> string.

Definition _on_click (now : Q) (x y : Z) (button : pybutton) (pressed : bool)
    (r : recorder) : res recorder :=
  _record_event now "mouse_click"
    [("x", VInt x); ("y", VInt y);
     ("button", VStr (str_button button)); ("pressed", VBool pressed)] r.

Definition _on_move (now : Q) (x y : Z) (r : recorder) : res recorder :=
  if negb (record_mouse_moves r) then Ok r
  else
    let '(last_x, last_y) := last_mouse_pos r in
    if (mouse_move_threshold r <=? Z.abs (x - last_x))%Z
       || (mouse_move_threshold r <=? Z.abs (y - last_y))%Z then
      res_bind (_record_event now "mouse_move" [("x", VInt x); ("y", VInt y)] r)
        (fun r' => Ok (set_last_mouse_pos r' (x, y)))
    else Ok r.

Definition _on_scroll (now : Q) (x y dx dy : Z) (r : recorder) : res recorder :=
  _record_event now "mouse_scroll"
    [("x", VInt x); ("y", VInt y); ("dx", VInt dx); ("dy", VInt dy)] r.

(** [key == Key.f9] *)
Definition is_f9 (key : SafeKeyParser.pykey) : bool :=
  match key with
  | SafeKeyParser.SpecialKey name => String.eqb name "f9"
  | SafeKeyParser.KeyCode _ _ => false
  end.

Definition _on_press (now : Q) (key : SafeKeyParser.pykey) (r : recorder)
    : res recorder :=
  let key_str := SafeKeyParser.key_to_string str_key key in
  res_bind (_record_event now "key_press" [("key", VStr key_str)] r)
    (fun r' => if is_f9 key then Ok (stop r') else Ok r').

Definition _on_release (now : Q) (key : SafeKeyParser.pykey) (r : recorder)
    : res recorder :=
  let key_str := SafeKeyParser.key_to_string str_key key in
  _record_event now "key_release" [("key", VStr key_str)] r.

(** What the two listeners deliver. *)
Inductive notification : Type :=
| Click (x y : Z) (button : pybutton) (pressed : bool)
| Move (x y : Z)
| Scroll (x y dx dy : Z)
| Press (key : SafeKeyParser.pykey)
| Release (key : SafeKeyParser.pykey).

Definition handle (now : Q) (n : notification) (r : recorder) : res recorder :=
  match n with
  | Click x y b p => _on_click now x y b p r
  | Move x y => _on_move now x y r
  | Scroll x y dx dy => _on_scroll now x y dx dy r
  | Press k => _on_press now k r
  | Release k => _on_release now k r
  end.

(** The notifications of a run, each with the clock reading at which its
    handler runs, in the order the listeners deliver them. *)
Fixpoint handle_all (ns : list (Q * notification)) (r : recorder)
    : res recorder :=
  match ns with
  | [] => Ok r
  | (now, n) :: ns' => res_bind (handle now n r) (handle_all ns')
  end.

End Handlers.

Arguments Click {pybutton} x y button pressed.
Arguments Move {pybutton} x y.
Arguments Scroll {pybutton} x y dx dy.
Arguments Press {pybutton} key.
Arguments Release {pybutton} key.
Arguments _on_click {pybutton} str_button now x y button pressed r.
Arguments handle str_key {pybutton} str_button now n r.
Arguments handle_all str_key {pybutton} str_button ns r.

End EnhancedRecorder.

(** ** [EnhancedPlayer] *)

(** The calls the player makes on the two controllers. *)
Inductive injection {PL : Pynput} : Type :=
| SetPosition (x y : value)
| MousePress (b : ButtonT)
| MouseRelease (b : ButtonT)
| MouseScroll (dx dy : value)
| KeyPress (k : parsed)
| KeyRelease (k : parsed).

(** The controllers: a state and the effect of a call on it, which can
    raise. *)
Class Controllers {PL : Pynput} : Type := {
  Backend : Type;
  inject : injection -> Backend -> Backend * option exn
}.

(** [a < b] on rationals *)
Definition Qltb (a b : Q) : bool := negb (Qle_bool b a).

(** [max(0, x)]: Python returns the first argument unless a later one is
    strictly greater. *)
Definition pymax0 (x : Q) : Q := if Qltb 0 x then x else 0.

Module EnhancedPlayer.

(** The calls another thread makes on the player while [play] runs. *)
Inductive command : Type := Stop | Pause | Resume.

(** Which [time.sleep] of the code: line 256 (the pause wait), line 267
    (the delay before an event), line 237 (between loops). *)
Inductive sleep_kind : Type := PausePoll | PreEvent | Settle.

Section Player.
Context {PL : Pynput} {CL : Controllers}.

(** What a run does, in order. [Exec t e] is the call
    [_execute_event(e)], made at clock reading [t]. *)
Inductive obs : Type :=
| Sleep (why : sleep_kind) (d : Q)
| Exec (t : Q) (e : event)
| Injected (i : injection)
| Callback (progress : Q) (current total : Z)
| PrintExecError (event_type : string) (e : exn)
| PrintPlaybackError (e : exn).

(** The attributes of the player object. *)
Record player : Type := mkPlayer {
  events : list event;
  playing : bool;
  paused : bool;
  speed_multiplier : Q;
  loop_count : Z;
  current_loop : Z
}.

(** The clock, the commands the controlling thread will issue (each with
    the clock reading at which it does), the controllers and the
    observations so far. The code between two sleeps takes no time; a sleep
    of [d] takes [d]. *)
Record world : Type := mkWorld {
  clock : Q;
  pending : list (Q * command);
  backend : Backend;
  trace : list obs
}.

Record pstate : Type := mkState { self : player; env : world }.

(** [__init__] *)
Definition init (evs : list event) : player :=
  {| events := evs; playing := false; paused := false;
     speed_multiplier := 1; loop_count := 1; current_loop := 0 |}.

Definition set_playing (b : bool) (p : player) : player :=
  {| events := events p; playing := b; paused := paused p;
     speed_multiplier := speed_multiplier p; loop_count := loop_count p;
     current_loop := current_loop p |}.

Definition set_paused (b : bool) (p : player) : player :=
  {| events := events p; playing := playing p; paused := b;
     speed_multiplier := speed_multiplier p; loop_count := loop_count p;
     current_loop := current_loop p |}.

Definition set_current_loop (z : Z) (p : player) : player :=
  {| events := events p; playing := playing p; paused := paused p;
     speed_multiplier := speed_multiplier p; loop_count := loop_count p;
     current_loop := z |}.

(** [stop], [pause], [resume] *)
Definition stop (p : player) : player := set_playing false p.
Definition pause (p : player) : player := set_paused true p.
Definition resume (p : player) : player := set_paused false p.

Definition apply_command (c : command) (p : player) : player :=
  match c with
  | Stop => stop p
  | Pause => pause p
  | Resume => resume p
  end.

(** The commands issued up to clock reading [now] take effect, in order;
    the others stay pending. *)
Fixpoint deliver (now : Q) (cmds : list (Q * command)) (p : player)
    : player * list (Q * command) :=
  match cmds with
  | [] => (p, [])
  | (t, c) :: rest =>
      if Qle_bool t now then deliver now rest (apply_command c p)
      else let '(p', rest') := deliver now rest p in (p', (t, c) :: rest')
  end.

(** *** The monad of the playback thread: state, exceptions, fuel *)

Inductive outcome (A : Type) : Type :=
| Done (a : A) (s : pstate)
| Raised (e : exn) (s : pstate)
| OutOfFuel.
Arguments Done {A} a s.
Arguments Raised {A} e s.
Arguments OutOfFuel {A}.

Definition M (A : Type) : Type := pstate -> outcome A.

Definition ret {A} (a : A) : M A := fun s => Done a s.

Definition bind {A B} (m : M A) (k : A -> M B) : M B :=
  fun s =>
    match m s with
    | Done a s' => k a s'
    | Raised e s' => Raised e s'
    | OutOfFuel => OutOfFuel
    end.

Definition raise {A} (e : exn) : M A := fun s => Raised e s.

Definition get_self : M player := fun s => Done (self s) s.

Definition modify_self (f : player -> player) : M unit :=
  fun s => Done tt {| self := f (self s); env := env s |}.

(** [time.time()] *)
Definition now : M Q := fun s => Done (clock (env s)) s.

Definition emit (o : obs) : M unit :=
  fun s =>
    Done tt {| self := self s;
               env := {| clock := clock (env s);
                         pending := pending (env s);
                         backend := backend (env s);
                         trace := trace (env s) ++ [o] |} |}.

(** The attribute writes of the other thread that are due become visible. *)
Definition sync : M unit :=
  fun s =>
    let '(p, rest) := deliver (clock (env s)) (pending (env s)) (self s) in
    Done tt {| self := p;
               env := {| clock := clock (env s);
                         pending := rest;
                         backend := backend (env s);
                         trace := trace (env s) |} |}.

Definition advance (d : Q) : M unit :=
  fun s =>
    Done tt {| self := self s;
               env := {| clock := clock (env s) + d;
                         pending := pending (env s);
                         backend := backend (env s);
                         trace := trace (env s) |} |}.

(** [time.sleep(d)]: the whole of [d] passes before the thread reads an
    attribute again. *)
Definition sleep (why : sleep_kind) (d : Q) : M unit :=
  bind (emit (Sleep why d)) (fun _ => bind (advance d) (fun _ => sync)).

Definition lift {A} (r : res A) : M A :=
  match r with
  | Ok a => ret a
  | Raise e => raise e
  end.

(** [try: body except Exception as e: handler(e)] *)
Definition try_except (body : M unit) (handler : exn -> M unit) : M unit :=
  fun s =>
    match body s with
    | Done a s' => Done a s'
    | Raised e s' => handler e s'
    | OutOfFuel => OutOfFuel
    end.

(** *** [_execute_event] *)

(** [v.split(...)], [v.startswith(...)]: only a string has the method. *)
Definition as_str (method : string) (v : value) : res string :=
  match v with
  | VStr s => Ok s
  | _ => Raise (AttributeError method)
  end.

(** [getattr(mouse.Button, btn_str)], without a default *)
Definition getattr_Button (btn_str : string) : res ButtonT :=
  match Button_getattr btn_str with
  | Some b => Ok b
  | None => Raise (AttributeError btn_str)
  end.

(** The controller call an event asks for, if its type is one of the five;
    the lookups on the way can raise. *)
Definition event_injection (e : event) : res (option injection) :=
  let data := ev_data e in
  if String.eqb (ev_type e) "mouse_move" then
    res_bind (dict_get data "x") (fun x =>
    res_bind (dict_get data "y") (fun y =>
    Ok (Some (SetPosition x y))))
  else if String.eqb (ev_type e) "mouse_click" then
    res_bind (dict_get data "button") (fun b =>
    res_bind (as_str "split" b) (fun s =>
    res_bind (PyStr.index_last (PyStr.split "." s)) (fun btn_str =>
    res_bind (getattr_Button btn_str) (fun btn =>
    res_bind (dict_get data "pressed") (fun p =>
    Ok (Some (if truthy p then MousePress btn else MouseRelease btn)))))))
  else if String.eqb (ev_type e) "mouse_scroll" then
    res_bind (dict_get data "dx") (fun dx =>
    res_bind (dict_get data "dy") (fun dy =>
    Ok (Some (MouseScroll dx dy))))
  else if String.eqb (ev_type e) "key_press" then
    res_bind (dict_get data "key") (fun k =>
    res_bind (as_str "startswith" k) (fun s =>
    res_bind (SafeKeyParser.parse_key s) (fun key =>
    Ok (Some (KeyPress key)))))
  else if String.eqb (ev_type e) "key_release" then
    res_bind (dict_get data "key") (fun k =>
    res_bind (as_str "startswith" k) (fun s =>
    res_bind (SafeKeyParser.parse_key s) (fun key =>
    Ok (Some (KeyRelease key)))))
  else Ok None.

(** A call on a controller *)
Definition call_controller (i : injection) : M unit :=
  fun s =>
    let '(b', r) := inject i (backend (env s)) in
    let s' := {| self := self s;
                 env := {| clock := clock (env s);
                           pending := pending (env s);
                           backend := b';
                           trace := trace (env s) ++ [Injected i] |} |} in
    match r with
    | None => Done tt s'
    | Some e => Raised e s'
    end.

Definition _execute_event (e : event) : M unit :=
  bind now (fun t =>
  bind (emit (Exec t e)) (fun _ =>
  try_except
    (bind (lift (event_injection e)) (fun oi =>
     match oi with
     | Some i => call_controller i
     | None => ret tt
     end))
    (fun x => emit (PrintExecError (ev_type e) x)))).

(** *** [_play_sequence] *)

(** [while self.paused and self.playing: time.sleep(0.1)], at most [fuel]
    rounds of it. *)
Fixpoint pause_wait (fuel : nat) : M unit :=
  fun s =>
    if paused (self s) && playing (self s) then
      match fuel with
      | O => OutOfFuel
      | S fuel' => bind (sleep PausePoll (1 # 10)) (fun _ => pause_wait fuel') s
      end
    else Done tt s.

(** [event['time'] / self.speed_multiplier] *)
Definition target_time (e : event) (speed : Q) : res Q :=
  if Qeq_bool speed 0 then Raise ZeroDivisionError else Ok (ev_time e / speed).

(** [(i + 1) / len(self.events)] *)
Definition progress (i : nat) (len : nat) : Q :=
  inject_Z (Z.of_nat i + 1) / inject_Z (Z.of_nat len).

(** The [for] loop of [_play_sequence] from index [i] on, [evs] being the
    events not yet visited; [callback] tells whether one was passed. A
    callback that is passed is taken to return. *)
Fixpoint for_events (fuel : nat) (callback : bool) (start_time : Q)
    (i : nat) (evs : list event) : M unit :=
  match evs with
  | [] => ret tt
  | event :: rest =>
      fun s =>
        if negb (playing (self s)) then Done tt s
        else
          bind (pause_wait fuel) (fun _ s1 =>
            if negb (playing (self s1)) then Done tt s1
            else
              bind (lift (target_time event (speed_multiplier (self s1))))
                (fun target_time =>
              bind now (fun t =>
              let elapsed := t - start_time in
              let delay := pymax0 (target_time - elapsed) in
              bind (if Qltb 0 delay then sleep PreEvent delay else ret tt)
                (fun _ =>
              bind (_execute_event event) (fun _ =>
              bind (if callback then
                      fun s2 =>
                        emit (Callback
                                (progress i (List.length (events (self s2))))
                                (current_loop (self s2) + 1)
                                (loop_count (self s2))) s2
                    else ret tt) (fun _ =>
              for_events fuel callback start_time (S i) rest))))) s1) s
  end.

Definition _play_sequence (fuel : nat) (callback : bool) : M unit :=
  fun s =>
    match events (self s) with
    | [] => Done tt s
    | _ :: _ =>
        bind now (fun start_time =>
        for_events fuel callback start_time 0 (events (self s))) s
    end.

(** *** [play] *)

(** The [while] loop of [play]; [n] bounds the rounds left. *)
Fixpoint play_loop (fuel : nat) (callback : bool) (n : nat) : M unit :=
  fun s =>
    if (current_loop (self s) <? loop_count (self s))%Z && playing (self s)
    then
      match n with
      | O => OutOfFuel
      | S n' =>
          bind (_play_sequence fuel callback) (fun _ =>
          bind (modify_self (fun p => set_current_loop (current_loop p + 1) p))
            (fun _ =>
          bind (fun s1 =>
                  if (current_loop (self s1) <? loop_count (self s1))%Z
                  then sleep Settle (1 # 10) s1
                  else Done tt s1) (fun _ =>
          play_loop fuel callback n'))) s
      end
    else Done tt s.

(** [play(speed, loops, callback)]. The commands of the other thread are
    those it issues once the four assignments are made. *)
Definition play (fuel : nat) (speed : Q) (loops : Z) (callback : bool)
    : M unit :=
  fun s =>
    let p := {| events := events (self s);
                playing := true;
                paused := paused (self s);
                speed_multiplier := speed;
                loop_count := loops;
                current_loop := 0 |} in
    let s0 := {| self := p; env := env s |} in
    match bind sync (fun _ => play_loop fuel callback (Z.to_nat loops)) s0 with
    | Done _ s' => Done tt {| self := set_playing false (self s'); env := env s' |}
    | Raised e s' =>
        match emit (PrintPlaybackError e) s' with
        | Done _ s'' =>
            Done tt {| self := set_playing false (self s''); env := env s'' |}
        | other => other
        end
    | OutOfFuel => OutOfFuel
    end.

(** A fresh player on a log, at clock reading [t0], with the commands the
    controlling thread is going to issue. *)
Definition fresh (evs : list event) (t0 : Q) (cmds : list (Q * command))
    (b : Backend) : pstate :=
  {| self := init evs;
     env := {| clock := t0; pending := cmds; backend := b; trace := [] |} |}.

(** The calls of [_execute_event] in a trace, with their clock readings. *)
Fixpoint dispatched (tr : list obs) : list (Q * event) :=
  match tr with
  | [] => []
  | Exec t e :: tr' => (t, e) :: dispatched tr'
  | _ :: tr' => dispatched tr'
  end.

(** The progress callbacks in a trace. *)
Fixpoint callbacks (tr : list obs) : list (Q * Z * Z) :=
  match tr with
  | [] => []
  | Callback pr c t :: tr' => (pr, c, t) :: callbacks tr'
  | _ :: tr' => callbacks tr'
  end.

(** The sleeps in a trace. *)
Fixpoint sleeps (tr : list obs) : list (sleep_kind * Q) :=
  match tr with
  | [] => []
  | Sleep w d :: tr' => (w, d) :: sleeps tr'
  | _ :: tr' => sleeps tr'
  end.

End Player.

Arguments Done {PL CL A} a s.
Arguments Raised {PL CL A} e s.
Arguments OutOfFuel {PL CL A}.

End EnhancedPlayer.

(** ** A concrete pynput to run the model on *)

Module Sample.

(** Some members of [Key]. *)
Definition special_keys : list string :=
  ["alt"; "backspace"; "caps_lock"; "cmd"; "ctrl"; "delete"; "down"; "end";
   "enter"; "esc"; "f1"; "f2"; "f3"; "f4"; "f5"; "f6"; "f7"; "f8"; "f9";
   "f10"; "f11"; "f12"; "home"; "left"; "page_down"; "page_up"; "right";
   "shift"; "space"; "tab"; "up"].

Definition lookup_name (names : list string) (name : string) : option string :=
  if existsb (String.eqb name) names then Some name else None.

#[export] Instance pynput : Pynput := {|
  KeyAttr := string;
  Key_getattr := lookup_name special_keys;
  KeyCodeT := string;
  KeyCode_from_char := fun s => Ok s;
  ButtonT := string;
  Button_getattr := lookup_name ["left"; "middle"; "right"]
|}.

(** Controllers that keep the calls made on them; the keyboard controller
    refuses a string that is not one character long. *)
Definition sample_inject (i : injection) (b : list injection)
    : list injection * option exn :=
  ((b ++ [i])%list,
   match i with
   | KeyPress (PStr s) | KeyRelease (PStr s) =>
       if (String.length s =? 1)%nat then None
       else Some (LibraryError "ValueError")
   | _ => None
   end).

#[export] Instance controllers : Controllers := {|
  Backend := list injection;
  inject := sample_inject
|}.

(** The controllers before any call *)
Definition untouched : @Backend pynput controllers := @nil injection.

(** [str(key)] and [str(button)] *)
Definition str_key (k : SafeKeyParser.pykey) : string :=
  match k with
  | SafeKeyParser.SpecialKey name => "Key." ++ name
  | SafeKeyParser.KeyCode _ (Some c) => "'" ++ c ++ "'"
  | SafeKeyParser.KeyCode _ None => "<vk>"
  end.

Definition str_button (name : string) : string := "Button." ++ name.

(** An event with no data, at time [t]: its type is none of the five, so
    executing it calls no controller. *)
Definition tick (t : Q) : event := mkEvent "tick" [] t.

Definition key_press (k : string) (t : Q) : event :=
  mkEvent "key_press" [("key", VStr k)] t.

(** A log of four events one second apart, played at speed 1; [pause] is
    called at 0.5 s and [resume] at 10.5 s. *)
Definition four_ticks : list event := [tick 0; tick 1; tick 2; tick 3].

(** A log whose first event is a key symbol that [Key] does not have: the
    keyboard controller refuses the string, and the next event is executed
    all the same. *)
Definition bad_key_log : list event :=
  [key_press "Key.nope" 0; key_press "'a'" (1 # 2)].

End Sample.

(** ** Reading a capture session *)

Module Capture.
Import EnhancedRecorder.

(** The moves of a synthetic sequence that the specification retains: a
    move is kept iff [max(|dx|, |dy|) >= threshold] against the last kept
    one, [last] standing for it before the first is kept. *)
Fixpoint retained_moves (threshold : Z) (last : Z * Z)
    (moves : list (Q * (Z * Z))) : list (Q * (Z * Z)) :=
  match moves with
  | [] => []
  | (t, (x, y)) :: rest =>
      if (threshold <=? Z.max (Z.abs (x - fst last)) (Z.abs (y - snd last)))%Z
      then (t, (x, y)) :: retained_moves threshold (x, y) rest
      else retained_moves threshold last rest
  end.

(** The event a move notification at clock reading [fst m] is logged as, in
    a session started at [t0]. *)
Definition move_event (t0 : Q) (m : Q * (Z * Z)) : event :=
  mkEvent "mouse_move"
    [("x", VInt (fst (snd m))); ("y", VInt (snd (snd m)))] (fst m - t0).

Definition F9 : SafeKeyParser.pykey := SafeKeyParser.SpecialKey "f9".

Section Notifications.
Variable pybutton : Type.

Definition move_notifications (moves : list (Q * (Z * Z)))
    : list (Q * notification pybutton) :=
  map (fun m => (fst m, Move (fst (snd m)) (snd (snd m)))) moves.

Definition is_f9_press (n : notification pybutton) : bool :=
  match n with
  | Press k => is_f9 k
  | _ => false
  end.

End Notifications.

Arguments move_notifications {pybutton} moves.
Arguments is_f9_press {pybutton} n.

End Capture.

(** ** Reading a playback run *)

Module Playback.
Import EnhancedPlayer.
Local Open Scope list_scope.
Local Open Scope Q_scope.

Section Runs.
Context {PL : Pynput} {CL : Controllers}.

(** A state, by its parts. *)
Definition st (p : player) (c : Q) (cmds : list (Q * command)) (b : Backend)
    (tr : list obs) : pstate :=
  {| self := p;
     env := {| clock := c; pending := cmds; backend := b; trace := tr |} |}.

(** What [_execute_event(e)] adds to the trace after its [Exec], on
    controllers in state [b], and the state it leaves them in. *)
Definition exec_obs (e : event) (b : Backend) : list obs :=
  match event_injection e with
  | Raise x => [PrintExecError (ev_type e) x]
  | Ok None => []
  | Ok (Some i) =>
      Injected i ::
      match snd (inject i b) with
      | Some x => [PrintExecError (ev_type e) x]
      | None => []
      end
  end.

Definition exec_backend (e : event) (b : Backend) : Backend :=
  match event_injection e with
  | Ok (Some i) => fst (inject i b)
  | _ => b
  end.

(** The delay before event [e] when the loop that started at [t0] reaches
    it at clock reading [c]. *)
Definition delay_at (p : player) (t0 c : Q) (e : event) : Q :=
  pymax0 (ev_time e / speed_multiplier p - (c - t0)).

Definition callback_obs (callback : bool) (p : player) (i : nat) : list obs :=
  if callback
  then [Callback (progress i (List.length (events p)))
          (current_loop p + 1) (loop_count p)]
  else [].

(** The clock reading at which event [e] is executed, and what one round
    of the [for] loop adds to the trace, when no command is pending and the
    player is neither paused nor stopped. *)
Definition arrival (p : player) (t0 c : Q) (e : event) : Q :=
  if Qltb 0 (delay_at p t0 c e) then c + delay_at p t0 c e else c.

Definition step_obs (callback : bool) (p : player) (t0 c : Q) (i : nat)
    (e : event) (b : Backend) : list obs :=
  (if Qltb 0 (delay_at p t0 c e) then [Sleep PreEvent (delay_at p t0 c e)]
   else [])
  ++ Exec (arrival p t0 c e) e :: exec_obs e b ++ callback_obs callback p i.

(** [sep.join(segs)] on lists *)
Fixpoint intercalate {A} (sep : list A) (segs : list (list A)) : list A :=
  match segs with
  | [] => []
  | seg :: rest =>
      match rest with
      | [] => seg
      | _ :: _ => seg ++ sep ++ intercalate sep rest
      end
  end.

(** The progress callbacks of the rounds [i .. i+n-1] of one pass over a
    log of [len] events, in loop number [cur] of [total]. *)
Definition loop_callbacks (callback : bool) (len i n : nat) (cur total : Z)
    : list (Q * Z * Z) :=
  if callback then map (fun j => (progress j len, cur, total)) (seq i n)
  else [].

(** What the trace of pass number [j] (from 0) over the log of [p] is to
    be: the events of the log executed in order, a callback after each
    with the fraction done, the loop number from 1 and the loop count, no
    sleep other than the delays before events, no playback error. *)
Definition pass_ok (callback : bool) (p : player) (j : nat) (seg : list obs)
    : Prop :=
  map snd (dispatched seg) = events p
  /\ callbacks seg
     = loop_callbacks callback (List.length (events p)) 0
         (List.length (events p)) (Z.of_nat j + 1) (loop_count p)
  /\ Forall (fun wd => fst wd = PreEvent) (sleeps seg)
  /\ (forall x, ~ In (PrintPlaybackError x) seg).

(** The player as [play] sets it up. *)
Definition armed (p : player) (speed : Q) (loops : Z) : player :=
  {| events := events p; playing := true; paused := paused p;
     speed_multiplier := speed; loop_count := loops; current_loop := 0 |}.

(** [s'] has executed no event that [s] had not, and has the speed of
    [s]. *)
Definition idle (s s' : pstate) : Prop :=
  dispatched (trace (env s')) = dispatched (trace (env s))
  /\ speed_multiplier (self s') = speed_multiplier (self s).

Definition idle_outcome (s : pstate) (o : outcome unit) : Prop :=
  match o with
  | Done _ s' => idle s s'
  | Raised _ s' => idle s s'
  | OutOfFuel => True
  end.

(** The clock reading after [k] rounds of the pause wait that started at
    [c]. *)
Definition after_polls (c : Q) (k : nat) : Q :=
  c + inject_Z (Z.of_nat k) * (1 # 10).

(** The clock readings at which the events of a run are executed, each with
    the time stamp of its event. *)
Definition dispatch_times (o : outcome unit) : option (list (Q * Q)) :=
  match o with
  | Done _ s =>
      Some (map (fun d => (Qred (fst d), ev_time (snd d)))
              (dispatched (trace (env s))))
  | _ => None
  end.

(** The sleeps of a run. *)
Definition sleeps_of (o : outcome unit) : option (list (sleep_kind * Q)) :=
  match o with
  | Done _ s =>
      Some (map (fun wd => (fst wd, Qred (snd wd))) (sleeps (trace (env s))))
  | _ => None
  end.

End Runs.

End Playback.

(** ** The three buttons of the sample [mouse.Button] *)

Module SampleButtons.

Inductive button3 : Type := BLeft | BMiddle | BRight.

(** [str(button)] *)
Definition str_button3 (b : button3) : string :=
  match b with
  | BLeft => "Button.left"
  | BMiddle => "Button.middle"
  | BRight => "Button.right"
  end.

End SampleButtons.

(** ** [get_stats] and the events of a session *)

Module RecorderStats.
Import EnhancedRecorder.
Local Open Scope list_scope.

(** The dictionary [get_stats] returns when the log is not empty. *)
Record stats : Type := mkStats {
  total_events : nat;
  duration : Q;
  mouse_clicks : nat;
  mouse_moves : nat;
  key_presses : nat
}.

(** [len([e for e in self.events if e['type'] == ty])] *)
Definition count_type (ty : string) (l : list event) : nat :=
  List.length (filter (fun e => String.eqb (ev_type e) ty) l).

(** [self.events[-1]['time'] if self.events else 0] *)
Definition last_time (l : list event) : Q :=
  match rev l with
  | e :: _ => ev_time e
  | [] => 0
  end.

(** [get_stats]; [None] is the empty dictionary of the first return. *)
Definition get_stats (r : recorder) : option stats :=
  match events r with
  | [] => None
  | _ :: _ =>
      Some {| total_events := List.length (events r);
              duration := last_time (events r);
              mouse_clicks := count_type "mouse_click" (events r);
              mouse_moves := count_type "mouse_move" (events r);
              key_presses := count_type "key_press" (events r) |}
  end.

(** [update_record_moves] of the window, with the box unticked:
    [self.recorder.record_mouse_moves = False]. *)
Definition set_moves_off (r : recorder) : recorder :=
  {| events := events r;
     recording := recording r;
     start_time := start_time r;
     stop_event := stop_event r;
     hotkey_stop := hotkey_stop r;
     mouse_move_threshold := mouse_move_threshold r;
     last_mouse_pos := last_mouse_pos r;
     record_mouse_moves := false |}.

(** [l1] is [l2] with some elements left out, the order kept. *)
Inductive subseq {A : Type} : list A -> list A -> Prop :=
| subseq_nil : subseq [] []
| subseq_keep (a : A) (l1 l2 : list A) :
    subseq l1 l2 -> subseq (a :: l1) (a :: l2)
| subseq_skip (a : A) (l1 l2 : list A) :
    subseq l1 l2 -> subseq l1 (a :: l2).

Section Events.
Variable str_key : SafeKeyParser.pykey -> string.
Variable pybutton : Type.
Variable str_button : pybutton -> string.

(** The event the handler of a notification passes to [_record_event], in
    a session started at [t0], the handler running at clock reading
    [fst tn]. *)
Definition event_of (t0 : Q) (tn : Q * notification pybutton) : event :=
  let now := fst tn in
  match snd tn with
  | Click x y button pressed =>
      mkEvent "mouse_click"
        [("x", VInt x); ("y", VInt y);
         ("button", VStr (str_button button)); ("pressed", VBool pressed)]
        (now - t0)
  | Move x y =>
      mkEvent "mouse_move" [("x", VInt x); ("y", VInt y)] (now - t0)
  | Scroll x y dx dy =>
      mkEvent "mouse_scroll"
        [("x", VInt x); ("y", VInt y); ("dx", VInt dx); ("dy", VInt dy)]
        (now - t0)
  | Press k =>
      mkEvent "key_press"
        [("key", VStr (SafeKeyParser.key_to_string str_key k))] (now - t0)
  | Release k =>
      mkEvent "key_release"
        [("key", VStr (SafeKeyParser.key_to_string str_key k))] (now - t0)
  end.

Definition is_move (n : notification pybutton) : bool :=
  match n with
  | Move _ _ => true
  | _ => false
  end.

End Events.

Arguments event_of str_key {pybutton} str_button t0 tn.
Arguments is_move {pybutton} n.

End RecorderStats.

(** ** What every run of the player keeps *)

Module PlaybackInvariants.
Import EnhancedPlayer Playback.
Local Open Scope list_scope.
Local Open Scope Q_scope.

Section Invariants.
Context {PL : Pynput} {CL : Controllers}.

(** The attributes that only [play] itself writes are those of [p]. *)
Definition same_config (p p' : player) : Prop :=
  events p' = events p
  /\ speed_multiplier p' = speed_multiplier p
  /\ loop_count p' = loop_count p
  /\ current_loop p' = current_loop p.

(** The event of [d] is executed no earlier than its place in the schedule
    of a loop that started at [t0]. *)
Definition on_time (speed t0 : Q) (d : Q * event) : Prop :=
  t0 + ev_time (snd d) / speed <= fst d.

(** From [s] to [s'], a pass over [evs] in a loop that started at [t0]:
    the events executed are the first of [evs], in order, each on time;
    no playback error is printed. When the pass returned ([returned]),
    either it went through all of [evs] or the player is stopped; when it
    raised, the speed is zero. *)
Definition pass_post (returned : bool) (t0 : Q) (evs : list event)
    (s s' : pstate) : Prop :=
  same_config (self s) (self s')
  /\ exists new rest,
       trace (env s') = trace (env s) ++ new
       /\ evs = map snd (dispatched new) ++ rest
       /\ Forall (on_time (speed_multiplier (self s)) t0) (dispatched new)
       /\ (forall x, ~ In (PrintPlaybackError x) new)
       /\ (if returned then rest = [] \/ playing (self s') = false
           else speed_multiplier (self s) == 0).

Definition pass_outcome (t0 : Q) (evs : list event) (s : pstate)
    (o : outcome unit) : Prop :=
  match o with
  | Done _ s' => pass_post true t0 evs s s'
  | Raised x s' => x = ZeroDivisionError /\ pass_post false t0 evs s s'
  | OutOfFuel => True
  end.

(** From [s] to [s'], at most [n] passes: the events executed are the
    first of the log repeated [n] times. *)
Definition loop_post (n : nat) (s s' : pstate) : Prop :=
  events (self s') = events (self s)
  /\ speed_multiplier (self s') = speed_multiplier (self s)
  /\ exists new rest,
       trace (env s') = trace (env s) ++ new
       /\ List.concat (repeat (events (self s)) n)
          = map snd (dispatched new) ++ rest
       /\ (forall x, ~ In (PrintPlaybackError x) new).

Definition loop_outcome (n : nat) (s : pstate) (o : outcome unit) : Prop :=
  match o with
  | Done _ s' => loop_post n s s'
  | Raised x s' =>
      x = ZeroDivisionError /\ speed_multiplier (self s) == 0
      /\ loop_post n s s'
  | OutOfFuel => True
  end.

End Invariants.

End PlaybackInvariants.

(** ** A player that nobody pauses *)

Module NoPause.
Import EnhancedPlayer.

Section NoPause.
Context {PL : Pynput} {CL : Controllers}.

(** The player is not paused and no [pause] is among the calls to come. *)
Definition never_paused (s : pstate) : Prop :=
  paused (self s) = false
  /\ Forall (fun tc => snd tc <> Pause) (pending (env s)).

End NoPause.

End NoPause.

(** ** [DisplayServerInfo] *)

Module DisplayServerInfo.

(** The attributes set by [__init__] from [os.environ]. *)
Record display : Type := mkDisplay {
  session_type : string;
  desktop : string;
  wayland_display : option string;
  x11_display : option string
}.

(** [os.environ.get(k, default)] *)
Definition environ_get (environ : string -> option string) (k default : string)
    : string :=
  match environ k with
  | Some v => v
  | None => default
  end.

(** [__init__] *)
Definition init (environ : string -> option string) : display :=
  {| session_type := environ_get environ "XDG_SESSION_TYPE" "unknown";
     desktop := environ_get environ "XDG_CURRENT_DESKTOP" "unknown";
     wayland_display := environ "WAYLAND_DISPLAY";
     x11_display := environ "DISPLAY" |}.

(** The dictionary [get_info] returns. *)
Record info : Type := mkInfo {
  info_session_type : string;
  info_desktop : string;
  info_wayland_display : option string;
  info_x11_display : option string;
  is_wayland : bool;
  is_x11 : bool;
  supports_recording : bool
}.

Section Probe.
(** [mouse.Controller()] and [keyboard.Controller()], which can raise. *)
Variable mouse_Controller : res unit.
Variable keyboard_Controller : res unit.

Definition _supports_recording : bool :=
  match res_bind mouse_Controller (fun _ => keyboard_Controller) with
  | Ok _ => true
  | Raise _ => false
  end.

Definition get_info (d : display) : info :=
  {| info_session_type := session_type d;
     info_desktop := desktop d;
     info_wayland_display := wayland_display d;
     info_x11_display := x11_display d;
     is_wayland := String.eqb (session_type d) "wayland";
     is_x11 := String.eqb (session_type d) "x11";
     supports_recording := _supports_recording |}.

End Probe.

End DisplayServerInfo.

(** ** [save] and [load] *)

Module Persistence.
Import EnhancedRecorder.
Local Open Scope list_scope.

Local Unset Elimination Schemes.

(** A JSON document. A number written with no fraction and no exponent is
    an integer, any other number a real. An object has each of its names
    once, as every object written from a dict has. *)
Inductive json : Type :=
| JNull
| JBool (b : bool)
| JInt (z : Z)
| JReal (q : Q)
| JString (s : string)
| JArray (items : list json)
| JObject (members : list (string * json)).

(** The Python values a document is read into. A dict is the list of its
    items in insertion order. *)
Inductive pyval : Type :=
| PyNone
| PyBool (b : bool)
| PyInt (z : Z)
| PyFloat (q : Q)
| PyString (s : string)
| PyList (items : list pyval)
| PyDict (items : list (string * pyval)).

Local Set Elimination Schemes.

(** Modelled from the spec: the codec is the [json] module of the Python
    library, whose code is not in the source. [Save] writes "an ordered
    array of event records in a self-describing, human-readable structured
    text format (field names explicit, no positional encoding), preserving
    full precision of timestamps and coordinates". By the library's
    conversion table, [json.dump] writes a dict as an object with its keys,
    a list as an array in order, a str as a string, an int and a float as
    a number with all their digits (a float always as a real), [True] and
    [False] as [true] and [false], [None] as [null]. The layout of the
    text ([indent=2]) is not part of the document. A float is a finite
    number: a NaN, which is equal to nothing, itself included, is outside
    the model. *)
Fixpoint json_dump (v : pyval) : json :=
  match v with
  | PyNone => JNull
  | PyBool b => JBool b
  | PyInt z => JInt z
  | PyFloat q => JReal q
  | PyString s => JString s
  | PyList items => JArray (map json_dump items)
  | PyDict items => JObject (map (fun kv => (fst kv, json_dump (snd kv))) items)
  end.

(** Modelled from the spec: [json.load], by the library's table for
    reading: an object as a dict, an array as a list, a string as a str, an
    integer as an int, a real as a float, [true] and [false] as [True] and
    [False], [null] as [None]. *)
Fixpoint json_load (j : json) : pyval :=
  match j with
  | JNull => PyNone
  | JBool b => PyBool b
  | JInt z => PyInt z
  | JReal q => PyFloat q
  | JString s => PyString s
  | JArray items => PyList (map json_load items)
  | JObject members =>
      PyDict (map (fun kv => (fst kv, json_load (snd kv))) members)
  end.

(** The Python value that a [value], an [event] and a log stand for. *)
Definition value_py (v : value) : pyval :=
  match v with
  | VInt z => PyInt z
  | VFloat q => PyFloat q
  | VBool b => PyBool b
  | VStr s => PyString s
  end.

Definition event_py (e : event) : pyval :=
  PyDict [("type", PyString (ev_type e));
          ("data", PyDict (map (fun kv => (fst kv, value_py (snd kv)))
                             (ev_data e)));
          ("time", PyFloat (ev_time e))].

Definition events_py (log : list event) : pyval :=
  PyList (map event_py log).

(** The other way: the log that a Python value is, when it is a list of
    dicts of the shape [_record_event] builds. *)
Definition as_value (v : pyval) : option value :=
  match v with
  | PyInt z => Some (VInt z)
  | PyFloat q => Some (VFloat q)
  | PyBool b => Some (VBool b)
  | PyString s => Some (VStr s)
  | _ => None
  end.

Fixpoint as_data (items : list (string * pyval))
    : option (list (string * value)) :=
  match items with
  | [] => Some []
  | (k, v) :: items' =>
      match as_value v, as_data items' with
      | Some x, Some d => Some ((k, x) :: d)
      | _, _ => None
      end
  end.

Definition as_event (v : pyval) : option event :=
  match v with
  | PyDict [(k1, PyString ty); (k2, PyDict items); (k3, PyFloat t)] =>
      if String.eqb k1 "type" && String.eqb k2 "data" && String.eqb k3 "time"
      then match as_data items with
           | Some d => Some (mkEvent ty d t)
           | None => None
           end
      else None
  | _ => None
  end.

Fixpoint as_event_list (items : list pyval) : option (list event) :=
  match items with
  | [] => Some []
  | v :: items' =>
      match as_event v, as_event_list items' with
      | Some e, Some l => Some (e :: l)
      | _, _ => None
      end
  end.

Definition as_events (v : pyval) : option (list event) :=
  match v with
  | PyList items => as_event_list items
  | _ => None
  end.

(** What a file holds: the text of a document, or some other text. *)
Inductive file : Type :=
| Document (j : json)
| OtherText (text : string).

(** The files, by name. *)
Definition files : Type := string -> option file.

Definition write (fs : files) (filename : string) (j : json) : files :=
  fun name => if String.eqb name filename then Some (Document j) else fs name.

(** [save], when [open(filename, 'w')] succeeds: the file then holds the
    document of [self.events], whatever it held before. *)
Definition save (filename : string) (r : recorder) (fs : files) : files :=
  write fs filename (json_dump (events_py (events r))).

(** What [load] does. [self.events] becomes what the document is read
    into; a value that is not a log is outside the type of [events]. *)
Inductive loaded : Type :=
| Loaded (r : recorder)
| FileNotFoundError
| JSONDecodeError
| NotALog (v : pyval).

Definition load (filename : string) (r : recorder) (fs : files) : loaded :=
  match fs filename with
  | None => FileNotFoundError
  | Some (OtherText _) => JSONDecodeError
  | Some (Document j) =>
      let v := json_load j in
      match as_events v with
      | Some log => Loaded (set_events r log)
      | None => NotALog v
      end
  end.

End Persistence.

(** ** The script [MacroCompiler.compile_to_script] writes *)

Module StandaloneScript.
Import EnhancedPlayer Persistence.
Local Open Scope list_scope.
Local Open Scope Q_scope.

(** *** The event array in the text of the script

    [compile_to_script] writes [EVENTS = ] and then the text of
    [json.dumps(events, indent=2)]: the script has the document of the log
    where Python reads an expression of its own. *)

(** The first byte of a character outside the Basic Multilingual Plane. *)
Definition astral_lead (a : ascii) : bool := (240 <=? N_of_ascii a)%N.

(** A surrogate, as three bytes. *)
Definition surrogate_bytes (x : N) : string :=
  String (ascii_of_N (224 + x / 4096))
    (String (ascii_of_N (128 + (x / 64) mod 64))
       (String (ascii_of_N (128 + x mod 64)) EmptyString)).

(** The two surrogates of the character of four bytes. *)
Definition surrogate_pair (a b1 b2 b3 : ascii) : string :=
  let cp := (N_of_ascii a mod 8 * 262144 + N_of_ascii b1 mod 64 * 4096
             + N_of_ascii b2 mod 64 * 64 + N_of_ascii b3 mod 64)%N in
  let c := (cp - 65536)%N in
  (surrogate_bytes (55296 + c / 1024)
   ++ surrogate_bytes (56320 + c mod 1024))%string.

(** The str that Python reads from the JSON text of a str. json writes a
    character outside the Basic Multilingual Plane as two escapes, which
    in a Python string literal are two characters, its surrogates; every
    other character is read as it was. *)
Fixpoint python_literal (s : string) : string :=
  match s with
  | EmptyString => EmptyString
  | String a t =>
      if astral_lead a then
        match t with
        | String b1 (String b2 (String b3 r)) =>
            (surrogate_pair a b1 b2 b3 ++ python_literal r)%string
        | _ => String a (python_literal t)
        end
      else String a (python_literal t)
  end.

(** The value of an expression, or the name in it that is not defined. *)
Inductive evaluated (A : Type) : Type :=
| Value (a : A)
| NameError (name : string).
Arguments Value {A} a.
Arguments NameError {A} name.

(** The items of a list display and of a dict display are evaluated from
    left to right. *)
Fixpoint eval_list {A} (l : list (evaluated A)) : evaluated (list A) :=
  match l with
  | [] => Value []
  | NameError name :: _ => NameError name
  | Value a :: l' =>
      match eval_list l' with
      | Value r => Value (a :: r)
      | NameError name => NameError name
      end
  end.

Fixpoint eval_dict {A} (l : list (string * evaluated A))
    : evaluated (list (string * A)) :=
  match l with
  | [] => Value []
  | (_, NameError name) :: _ => NameError name
  | (k, Value a) :: l' =>
      match eval_dict l' with
      | Value r => Value ((k, a) :: r)
      | NameError name => NameError name
      end
  end.

(** A document read as a Python expression: an object is a dict display,
    an array a list display, a string a string literal, a number a number;
    [true], [false] and [null] are names, and no such name is defined. *)
Fixpoint py_eval (j : json) : evaluated pyval :=
  match j with
  | JNull => NameError "null"
  | JBool b => NameError (if b then "true" else "false")
  | JInt z => Value (PyInt z)
  | JReal q => Value (PyFloat q)
  | JString s => Value (PyString (python_literal s))
  | JArray items =>
      match eval_list (map py_eval items) with
      | Value vs => Value (PyList vs)
      | NameError name => NameError name
      end
  | JObject members =>
      match eval_dict (map (fun kv => (python_literal (fst kv),
                                       py_eval (snd kv))) members) with
      | Value d => Value (PyDict d)
      | NameError name => NameError name
      end
  end.

(** A str with no character outside the Basic Multilingual Plane. *)
Definition bmp (s : string) : bool :=
  forallb (fun a => negb (astral_lead a)) (list_ascii_of_string s).

(** An event that is read from the script as it was in the log. *)
Definition literal_value (v : value) : bool :=
  match v with
  | VBool _ => false
  | VStr s => bmp s
  | _ => true
  end.

Definition literal_event (e : event) : bool :=
  bmp (ev_type e)
  && forallb (fun kv => bmp (fst kv) && literal_value (snd kv)) (ev_data e).

Section Script.
Context {PL : Pynput} {CL : Controllers}.

(** What a run of the script does, in order. *)
Inductive script_obs : Type :=
| SPrint (msg : string)
| SSleep (d : Q)
| SInjected (i : injection).

Record script_state : Type := mkScript {
  s_clock : Q;
  s_backend : Backend;
  s_trace : list script_obs
}.

Definition s_emit (o : script_obs) (s : script_state) : script_state :=
  {| s_clock := s_clock s; s_backend := s_backend s;
     s_trace := s_trace s ++ [o] |}.

(** [time.sleep(d)] *)
Definition s_sleep (d : Q) (s : script_state) : script_state :=
  {| s_clock := s_clock s + d; s_backend := s_backend s;
     s_trace := s_trace s ++ [SSleep d] |}.

(** The [if]/[elif] chain of the script's [play] on one event: the lookups
    and the controller call of [_execute_event], with no [try] around
    them. The second component is the exception that gets out, if any. *)
Definition script_dispatch (e : event) (s : script_state)
    : script_state * option exn :=
  match event_injection e with
  | Raise x => (s, Some x)
  | Ok None => (s, None)
  | Ok (Some i) =>
      let '(b', r) := inject i (s_backend s) in
      ({| s_clock := s_clock s; s_backend := b';
          s_trace := s_trace s ++ [SInjected i] |}, r)
  end.

(** The [for] loop of the script's [play]. *)
Fixpoint script_loop (start_time : Q) (evs : list event) (s : script_state)
    : script_state * option exn :=
  match evs with
  | [] => (s, None)
  | event :: rest =>
      let s1 := s_sleep (pymax0 (ev_time event - (s_clock s - start_time))) s in
      match script_dispatch event s1 with
      | (s2, Some x) => (s2, Some x)
      | (s2, None) => script_loop start_time rest s2
      end
  end.

(** [MacroPlayer.play] on the embedded [EVENTS]. *)
Definition script_play (EVENTS : list event) (s : script_state)
    : script_state * option exn :=
  let s0 := s_emit (SPrint "Playing macro...") s in
  match script_loop (s_clock s0) EVENTS s0 with
  | (s1, None) => (s_emit (SPrint "Macro completed!") s1, None)
  | (s1, Some x) => (s1, Some x)
  end.

(** The data of an event, read from the script. *)
Definition read_data (d : list (string * value))
    : evaluated (list (string * pyval)) :=
  eval_dict
    (map (fun kv => (python_literal (fst kv),
                     py_eval (json_dump (value_py (snd kv))))) d).

(** How a run of the script ends: [play] returns, an exception of a
    dispatch gets out of [play], or the assignment to [EVENTS] raises
    before anything else is done. *)
Inductive script_end : Type :=
| Completed
| Uncaught (x : exn)
| UncaughtNameError (name : string)
| NoEvents (v : pyval).

(** A run of the script that [compile_to_script] writes for [events]:
    first [EVENTS = ...], then [MacroPlayer().play()]. [play] is modelled
    for an [EVENTS] that is a list of events. *)
Definition script_main (events : list event) (s : script_state)
    : script_state * script_end :=
  match py_eval (json_dump (events_py events)) with
  | NameError name => (s, UncaughtNameError name)
  | Value v =>
      match as_events v with
      | None => (s, NoEvents v)
      | Some EVENTS =>
          match script_play EVENTS s with
          | (s', None) => (s', Completed)
          | (s', Some x) => (s', Uncaught x)
          end
      end
  end.

(** The controller calls in a trace of the script, and of the player. *)
Fixpoint script_calls (tr : list script_obs) : list injection :=
  match tr with
  | [] => []
  | SInjected i :: tr' => i :: script_calls tr'
  | _ :: tr' => script_calls tr'
  end.

Fixpoint calls (tr : list obs) : list injection :=
  match tr with
  | [] => []
  | Injected i :: tr' => i :: calls tr'
  | _ :: tr' => calls tr'
  end.

End Script.

End StandaloneScript.

(** * Properties *)

(** ** Key symbol resolution *)

Module KeyParserSpec.
Import SafeKeyParser.

Lemma split_not_nil (c : ascii) (s : string) : PyStr.split c s <> [].
Proof.
  induction s as [|a r IH]; simpl; [discriminate|].
  destruct (Ascii.eqb a c); [discriminate|].
  destruct (PyStr.split c r); discriminate.
Qed.

Lemma split_head (c : ascii) (s : string) :
  exists h t, PyStr.split c s = h :: t.
Proof.
  destruct (PyStr.split c s) as [|h t] eqn:E.
  - now apply split_not_nil in E.
  - now exists h, t.
Qed.

Lemma split_no_separator (c : ascii) (s : string) :
  PyStr.contains c s = false -> PyStr.split c s = [s].
Proof.
  unfold PyStr.contains.
  induction s as [|a r IH]; simpl; [reflexivity|].
  intros H. apply orb_false_iff in H. destruct H as [Hc Hr].
  rewrite Ascii.eqb_sym, Hc. now rewrite (IH Hr).
Qed.

Lemma startswith_Key_inv (s : string) :
  PyStr.startswith "Key." s = true -> exists rest, s = "Key." ++ rest.
Proof.
  unfold PyStr.startswith. intros H.
  destruct s as [|a1 [|a2 [|a3 [|a4 rest]]]]; cbn [String.prefix] in H;
    try discriminate;
    repeat match type of H with
           | context [ascii_dec ?a ?b] =>
               destruct (ascii_dec a b); [subst|discriminate]
           end; try discriminate.
  now exists rest.
Qed.

Lemma startswith_Key_append (rest : string) :
  PyStr.startswith "Key." ("Key." ++ rest) = true.
Proof. apply String.prefix_correct. now destruct rest. Qed.

Lemma key_name_Key (rest : string) :
  key_name ("Key." ++ rest)
  = Ok (hd EmptyString (PyStr.split "." rest)).
Proof.
  unfold key_name. simpl.
  destruct (split_head "." rest) as (h & t & E). now rewrite E.
Qed.

Lemma split_at_first (c : ascii) (name rest : string) :
  PyStr.contains c name = false ->
  PyStr.split c (name ++ String c rest) = name :: PyStr.split c rest.
Proof.
  unfold PyStr.contains.
  induction name as [|a r IH]; simpl.
  - intros _. now rewrite Ascii.eqb_refl.
  - intros H. apply orb_false_iff in H. destruct H as [Hc Hr].
    rewrite Ascii.eqb_sym, Hc. now rewrite (IH Hr).
Qed.

Lemma char_at_len3 (s : string) :
  PyStr.len s = 3%nat -> exists c, PyStr.char_at s 1 = Ok c.
Proof.
  unfold PyStr.len, PyStr.char_at.
  destruct (PyStr.chars s) as [|c1 [|c2 l]]; simpl; try discriminate.
  intros _. now eexists.
Qed.

Section Parser.
Context {PL : Pynput}.

(** C7. [parse_key] is a function on strings that returns a value for every
    input and never raises: the result is an attribute of [Key], a string or
    a [KeyCode]. For a symbol that starts with [Key.] the parser looks up,
    with [getattr] on the class [Key], the segment between the first dot
    and the second. If [Key] has an attribute of that name, the result is
    that attribute, whatever follows a second dot; if it has none, the
    result is the symbol itself, unchanged. So ["Key." ++ name] with a
    dot-free [name] resolves to the key [name] when [Key] has it, and comes
    back verbatim when it does not; and ["Key." ++ name ++ "." ++ rest]
    resolves as ["Key." ++ name] does, also when [Key] has nothing called
    [name ++ "." ++ rest]. *)
Theorem parse_key_total_fail_closed :
  (forall key_str, exists v, parse_key key_str = Ok v)
  /\ (forall key_str name a,
        PyStr.startswith "Key." key_str = true ->
        key_name key_str = Ok name ->
        Key_getattr name = Some a ->
        parse_key key_str = Ok (PAttr a))
  /\ (forall key_str name,
        PyStr.startswith "Key." key_str = true ->
        key_name key_str = Ok name ->
        Key_getattr name = None ->
        parse_key key_str = Ok (PStr key_str))
  /\ (forall name a,
        PyStr.contains "." name = false ->
        Key_getattr name = Some a ->
        parse_key ("Key." ++ name) = Ok (PAttr a))
  /\ (forall name,
        PyStr.contains "." name = false ->
        Key_getattr name = None ->
        parse_key ("Key." ++ name) = Ok (PStr ("Key." ++ name)))
  /\ (forall name rest a,
        PyStr.contains "." name = false ->
        Key_getattr name = Some a ->
        parse_key ("Key." ++ name ++ String "." rest) = Ok (PAttr a))
  /\ (forall name rest,
        PyStr.contains "." name = false ->
        Key_getattr name = None ->
        parse_key ("Key." ++ name ++ String "." rest)
        = Ok (PStr ("Key." ++ name ++ String "." rest))).
Proof.
  repeat split.
  - intros key_str. unfold parse_key.
    destruct (PyStr.startswith "Key." key_str) eqn:Hk.
    + destruct (startswith_Key_inv _ Hk) as (rest & ->).
      rewrite key_name_Key. simpl. now eexists.
    + destruct (PyStr.startswith "'" key_str && PyStr.endswith "'" key_str
                && (PyStr.len key_str =? 3)%nat) eqn:Hq.
      * apply andb_true_iff in Hq. destruct Hq as [_ Hlen].
        apply Nat.eqb_eq in Hlen.
        destruct (char_at_len3 _ Hlen) as (c & ->). simpl. now eexists.
      * destruct (KeyCode_from_char key_str); now eexists.
  - intros key_str name a Hk Hn Hsome. unfold parse_key.
    rewrite Hk, Hn. simpl. unfold getattr_Key. now rewrite Hsome.
  - intros key_str name Hk Hn Hnone. unfold parse_key.
    rewrite Hk, Hn. simpl. unfold getattr_Key. now rewrite Hnone.
  - intros name a Hdot Hsome. unfold parse_key.
    rewrite startswith_Key_append, key_name_Key.
    rewrite (split_no_separator _ _ Hdot). simpl.
    unfold getattr_Key. now rewrite Hsome.
  - intros name Hdot Hnone. unfold parse_key.
    rewrite startswith_Key_append, key_name_Key.
    rewrite (split_no_separator _ _ Hdot). simpl.
    unfold getattr_Key. now rewrite Hnone.
  - intros name rest a Hdot Hsome. unfold parse_key.
    rewrite startswith_Key_append, key_name_Key.
    rewrite (split_at_first _ _ _ Hdot). simpl.
    unfold getattr_Key. now rewrite Hsome.
  - intros name rest Hdot Hnone. unfold parse_key.
    rewrite startswith_Key_append, key_name_Key.
    rewrite (split_at_first _ _ _ Hdot). simpl.
    unfold getattr_Key. now rewrite Hnone.
Qed.

End Parser.

Import Sample.

(** Against C7: [Key] of the sample has nothing called [f9.x], the name
    that follows [Key.] in the symbol ["Key.f9.x"], and yet the symbol does
    not come back verbatim: it resolves to the key [f9]. *)
Lemma unrecognized_name_is_resolved :
  Key_getattr "f9.x" = None
  /\ parse_key "Key.f9.x" = Ok (PAttr "f9")
  /\ parse_key "Key.f9.x" <> Ok (PStr "Key.f9.x").
Proof. split; [reflexivity|]. split; [reflexivity|discriminate]. Qed.

(** The theorem at the sample [Key]: ["Key.f9"] and ["Key.f9.x"] resolve to
    the key [f9], ["Key.nope"] and ["Key.nope.x"] come back unchanged. *)
Lemma parse_key_total_fail_closed_witness :
  (exists v, parse_key "Key.f9" = Ok v)
  /\ parse_key "Key.f9.x" = Ok (PAttr "f9")
  /\ parse_key "Key.nope.x" = Ok (PStr "Key.nope.x")
  /\ parse_key "Key.f9" = Ok (PAttr "f9")
  /\ parse_key "Key.nope" = Ok (PStr "Key.nope")
  /\ parse_key "Key.f9.x" = Ok (PAttr "f9")
  /\ parse_key "Key.nope.x" = Ok (PStr "Key.nope.x").
Proof.
  destruct (@parse_key_total_fail_closed Sample.pynput)
    as (H1 & H2 & H3 & H4 & H5 & H6 & H7).
  split; [apply H1|].
  split; [apply (H2 "Key.f9.x" "f9"); reflexivity|].
  split; [apply (H3 "Key.nope.x" "nope"); reflexivity|].
  split; [apply (H4 "f9"); reflexivity|].
  split; [apply (H5 "nope"); reflexivity|].
  split; [apply (H6 "f9" "x"); reflexivity|].
  apply (H7 "nope" "x"); reflexivity.
Defined.

End KeyParserSpec.

(** ** The capture engine *)

Module RecorderSpec.
Import EnhancedRecorder Capture.
Local Open Scope list_scope.

Section Recorder.
Variable str_key : SafeKeyParser.pykey -> string.
Variable pybutton : Type.
Variable str_button : pybutton -> string.

Lemma record_event_on now ty d r t0 :
  recording r = true -> start_time r = Some t0 ->
  _record_event now ty d r
  = Ok (set_events r (events r ++ [mkEvent ty d (now - t0)])).
Proof. intros Hr Ht. unfold _record_event. now rewrite Hr, Ht. Qed.

Lemma record_event_off now ty d r :
  recording r = false -> _record_event now ty d r = Ok r.
Proof. intros Hr. unfold _record_event. now rewrite Hr. Qed.

Lemma handle_all_app (a b : list (Q * notification pybutton)) r :
  handle_all str_key str_button (a ++ b) r
  = res_bind (handle_all str_key str_button a r)
      (handle_all str_key str_button b).
Proof.
  revert r. induction a as [|[t n] a IH]; intros r; simpl; [reflexivity|].
  destruct (handle str_key str_button t n r); simpl; [apply IH|reflexivity].
Qed.

Lemma or_threshold_max (thr dx dy : Z) :
  ((thr <=? dx) || (thr <=? dy))%Z = (thr <=? Z.max dx dy)%Z.
Proof.
  destruct (Z.leb_spec thr dx), (Z.leb_spec thr dy),
    (Z.leb_spec thr (Z.max dx dy)); simpl; try reflexivity; lia.
Qed.

(** One move notification in a running session. *)
Lemma on_move_step now x y r t0 :
  recording r = true -> start_time r = Some t0 ->
  record_mouse_moves r = true ->
  _on_move now x y r
  = if (mouse_move_threshold r
        <=? Z.max (Z.abs (x - fst (last_mouse_pos r)))
                  (Z.abs (y - snd (last_mouse_pos r))))%Z
    then Ok (set_last_mouse_pos
               (set_events r (events r ++ [move_event t0 (now, (x, y))]))
               (x, y))
    else Ok r.
Proof.
  intros Hr Ht Hm. unfold _on_move. rewrite Hm. simpl.
  destruct (last_mouse_pos r) as [lx ly]. simpl.
  rewrite or_threshold_max.
  destruct (_ <=? _)%Z; [|reflexivity].
  now rewrite (record_event_on _ _ _ _ _ Hr Ht).
Qed.

Lemma moves_in_session t0 moves : forall r,
  recording r = true -> start_time r = Some t0 ->
  record_mouse_moves r = true ->
  exists r',
    handle_all str_key str_button (move_notifications moves) r = Ok r'
    /\ events r'
       = events r
         ++ map (move_event t0)
              (retained_moves (mouse_move_threshold r) (last_mouse_pos r) moves).
Proof.
  induction moves as [|[t [x y]] rest IH]; intros r Hr Ht Hm; simpl.
  - exists r. now rewrite app_nil_r.
  - rewrite (on_move_step _ _ _ _ _ Hr Ht Hm).
    destruct (_ <=? _)%Z; simpl.
    + destruct (IH (set_last_mouse_pos
                      (set_events r (events r ++ [move_event t0 (t, (x, y))]))
                      (x, y))) as (r' & Hrun & Hev); try assumption.
      exists r'. split; [exact Hrun|].
      rewrite Hev. simpl. now rewrite <- app_assoc.
    + now apply IH.
Qed.

(** C2, as the code has it. In a capture session with movement recording
    on, the logged moves of a sequence of move notifications are exactly
    those whose [max(|dx|, |dy|)] against the last retained move reaches
    [mouse_move_threshold], where before the session's first retained move
    the comparison is against the [last_mouse_pos] the recorder had when
    the session started: [start] does not reset it, and it is [(0, 0)] on a
    new recorder, with the threshold 5. *)
Theorem move_filter_from_carried_position (r0 : recorder) (t0 : Q)
    (moves : list (Q * (Z * Z))) :
  record_mouse_moves r0 = true ->
  (exists r',
     handle_all str_key str_button (move_notifications moves) (start t0 r0)
     = Ok r'
     /\ events r'
        = map (move_event t0)
            (retained_moves (mouse_move_threshold r0) (last_mouse_pos r0)
               moves))
  /\ last_mouse_pos (start t0 r0) = last_mouse_pos r0
  /\ last_mouse_pos init = (0, 0)%Z
  /\ mouse_move_threshold init = 5%Z.
Proof.
  intros Hm. split; [|repeat split].
  destruct (moves_in_session t0 moves (start t0 r0)) as (r' & Hrun & Hev);
    try reflexivity; try exact Hm.
  exists r'. split; [exact Hrun|exact Hev].
Qed.

(** A notification that is not a press of the stop key leaves a running
    session running. *)
Lemma handle_keeps_session now n r t0 :
  recording r = true -> start_time r = Some t0 ->
  is_f9_press n = false ->
  exists r', handle str_key str_button now n r = Ok r'
             /\ recording r' = true /\ start_time r' = Some t0.
Proof.
  intros Hr Ht Hn. destruct n as [x y b p|x y|x y dx dy|k|k]; simpl.
  - unfold _on_click. rewrite (record_event_on _ _ _ _ _ Hr Ht).
    eexists; split; [reflexivity|now split].
  - unfold _on_move. destruct (record_mouse_moves r); simpl.
    + destruct (last_mouse_pos r) as [lx ly].
      destruct (_ || _).
      * rewrite (record_event_on _ _ _ _ _ Hr Ht). simpl.
        eexists; split; [reflexivity|now split].
      * now exists r.
    + now exists r.
  - unfold _on_scroll. rewrite (record_event_on _ _ _ _ _ Hr Ht).
    eexists; split; [reflexivity|now split].
  - unfold _on_press. rewrite (record_event_on _ _ _ _ _ Hr Ht). simpl.
    simpl in Hn. rewrite Hn. eexists; split; [reflexivity|now split].
  - unfold _on_release. rewrite (record_event_on _ _ _ _ _ Hr Ht).
    eexists; split; [reflexivity|now split].
Qed.

Lemma session_keeps_running t0 ns : forall r,
  recording r = true -> start_time r = Some t0 ->
  Forall (fun tn => is_f9_press (snd tn) = false) ns ->
  exists r', handle_all str_key str_button ns r = Ok r'
             /\ recording r' = true /\ start_time r' = Some t0.
Proof.
  induction ns as [|[t n] ns IH]; intros r Hr Ht Hall; simpl.
  - now exists r.
  - inversion Hall as [|? ? Hn Hrest]; subst. simpl in Hn.
    destruct (handle_keeps_session t n r t0 Hr Ht Hn) as (r1 & -> & Hr1 & Ht1).
    simpl. now apply IH.
Qed.

(** Once [recording] is off, no notification changes the log. *)
Lemma handle_when_stopped now n r :
  recording r = false ->
  exists r', handle str_key str_button now n r = Ok r'
             /\ events r' = events r /\ recording r' = false.
Proof.
  intros Hr. destruct n as [x y b p|x y|x y dx dy|k|k]; simpl.
  - unfold _on_click. rewrite (record_event_off _ _ _ _ Hr). now exists r.
  - unfold _on_move. destruct (record_mouse_moves r); simpl.
    + destruct (last_mouse_pos r) as [lx ly].
      destruct (_ || _).
      * rewrite (record_event_off _ _ _ _ Hr). simpl.
        eexists; split; [reflexivity|now split].
      * now exists r.
    + now exists r.
  - unfold _on_scroll. rewrite (record_event_off _ _ _ _ Hr). now exists r.
  - unfold _on_press. rewrite (record_event_off _ _ _ _ Hr). simpl.
    destruct (is_f9 k); eexists; (split; [reflexivity|now split]).
  - unfold _on_release. rewrite (record_event_off _ _ _ _ Hr). now exists r.
Qed.

Lemma stopped_log_frozen ns : forall r,
  recording r = false ->
  exists r', handle_all str_key str_button ns r = Ok r'
             /\ events r' = events r /\ recording r' = false.
Proof.
  induction ns as [|[t n] ns IH]; intros r Hr; simpl.
  - now exists r.
  - destruct (handle_when_stopped t n r Hr) as (r1 & -> & He1 & Hr1). simpl.
    destruct (IH r1 Hr1) as (r' & Hrun & He & Hr').
    exists r'. split; [exact Hrun|]. split; [congruence|exact Hr'].
Qed.

(** C10. In a capture session ended by a press of F9, the [key_press]
    event of F9 is appended before [stop] takes effect and is the last
    event of the log: whatever notifications follow, the release of F9
    among them, are not recorded, [recording] being off. *)
Theorem stop_hotkey_press_is_last_event (r0 : recorder) (t0 t : Q)
    (before after : list (Q * notification pybutton)) :
  Forall (fun tn => is_f9_press (snd tn) = false) before ->
  exists r1 r2,
    handle_all str_key str_button before (start t0 r0) = Ok r1
    /\ handle_all str_key str_button (before ++ (t, Press F9) :: after)
         (start t0 r0) = Ok r2
    /\ events r2
       = events r1
         ++ [mkEvent "key_press"
               [("key", VStr (SafeKeyParser.key_to_string str_key F9))]
               (t - t0)]
    /\ recording r2 = false.
Proof.
  intros Hbefore.
  destruct (session_keeps_running t0 before (start t0 r0))
    as (r1 & Hrun1 & Hr1 & Ht1); try reflexivity; try exact Hbefore.
  set (ev := mkEvent "key_press"
               [("key", VStr (SafeKeyParser.key_to_string str_key F9))]
               (t - t0)).
  destruct (stopped_log_frozen after (stop (set_events r1 (events r1 ++ [ev]))))
    as (r2 & Hrun2 & He2 & Hr2); [reflexivity|].
  exists r1, r2. split; [exact Hrun1|]. split; [|split].
  - rewrite handle_all_app, Hrun1. simpl.
    unfold _on_press. rewrite (record_event_on _ _ _ _ _ Hr1 Ht1). simpl.
    exact Hrun2.
  - rewrite He2. reflexivity.
  - exact Hr2.
Qed.

End Recorder.

(** On a new recorder the first move of the first session, at [(2, 3)], is
    not retained: it is less than 5 pixels from [(0, 0)]. *)
Lemma first_move_dropped :
  exists r,
    handle_all Sample.str_key Sample.str_button [(1, Move 2 3)] (start 0 init)
    = Ok r
    /\ events r = [].
Proof. eexists. split; reflexivity. Qed.

(** The filter theorem on a new recorder: of the moves to (2,3), (6,1),
    (8,4) and (12,1) the second and the fourth are logged. *)
Lemma move_filter_from_carried_position_witness :
  exists r,
    handle_all Sample.str_key Sample.str_button
      (@move_notifications string
         [(1, (2, 3)%Z); (2, (6, 1)%Z); (3, (8, 4)%Z); (4, (12, 1)%Z)])
      (start 0 init) = Ok r
    /\ events r = map (move_event 0) [(2, (6, 1)%Z); (4, (12, 1)%Z)].
Proof.
  destruct (move_filter_from_carried_position Sample.str_key string
              Sample.str_button init 0
              [(1, (2, 3)%Z); (2, (6, 1)%Z); (3, (8, 4)%Z); (4, (12, 1)%Z)]
              eq_refl) as ((r & Hrun & Hev) & _).
  exists r. split; [exact Hrun|exact Hev].
Defined.

(** The hot-key theorem on a session of one click, then F9 pressed and
    released. *)
Lemma stop_hotkey_press_is_last_event_witness :
  exists r1 r2,
    handle_all Sample.str_key Sample.str_button
      [(1, Click 10 20 "left" true)] (start 0 init) = Ok r1
    /\ handle_all Sample.str_key Sample.str_button
         ([(1, Click 10 20 "left" true)]
          ++ (2, Press F9) :: [(3, Release F9)]) (start 0 init) = Ok r2
    /\ events r2
       = events r1 ++ [mkEvent "key_press" [("key", VStr "Key.f9")] (2 - 0)]
    /\ recording r2 = false.
Proof.
  apply (stop_hotkey_press_is_last_event Sample.str_key string
           Sample.str_button init 0 2
           [(1, Click 10 20 "left" true)] [(3, Release F9)]).
  repeat constructor.
Defined.

End RecorderSpec.

(** ** Saving a log and loading it back *)

Module PersistenceSpec.
Import EnhancedRecorder Persistence.
Local Open Scope list_scope.

(** Reading back what was written gives the value that was written. *)
Lemma json_load_dump : forall v : pyval, json_load (json_dump v) = v.
Proof.
  fix IH 1. intros [| b | z | q | s | items | items]; simpl;
    try reflexivity.
  - f_equal. induction items as [|a l IHl]; simpl; [reflexivity|].
    now rewrite (IH a), IHl.
  - f_equal. induction items as [|[k a] l IHl]; simpl; [reflexivity|].
    now rewrite (IH a), IHl.
Qed.

Lemma as_data_py (d : list (string * value)) :
  as_data (map (fun kv => (fst kv, value_py (snd kv))) d) = Some d.
Proof.
  induction d as [|[k v] d IH]; simpl; [reflexivity|].
  rewrite IH. now destruct v.
Qed.

Lemma as_event_py (e : event) : as_event (event_py e) = Some e.
Proof.
  destruct e as [ty d t]. unfold event_py, as_event.
  cbn [ev_type ev_data ev_time].
  change (String.eqb "type" "type" && String.eqb "data" "data"
          && String.eqb "time" "time") with true.
  cbv iota. now rewrite as_data_py.
Qed.

Lemma as_events_py (log : list event) : as_events (events_py log) = Some log.
Proof.
  unfold events_py, as_events.
  induction log as [|e l IH]; cbn [map as_event_list]; [reflexivity|].
  now rewrite as_event_py, IH.
Qed.

Lemma load_written (filename : string) (r' : recorder) (fs : files)
    (log : list event) :
  fs filename = Some (Document (json_dump (events_py log))) ->
  load filename r' fs = Loaded (set_events r' log).
Proof.
  intros H. unfold load. rewrite H. cbv zeta.
  now rewrite json_load_dump, as_events_py.
Qed.


Import Sample.


End PersistenceSpec.

(** ** The playback engine *)

Module PlayerSpec.
Import EnhancedPlayer Playback.
Local Open Scope list_scope.
Local Open Scope Q_scope.

Section Player.
Context {PL : Pynput} {CL : Controllers}.

Lemma Qltb_true a b : Qltb a b = true <-> a < b.
Proof.
  unfold Qltb. rewrite negb_true_iff.
  destruct (Qle_bool b a) eqn:E.
  - apply Qle_bool_iff in E. split; [discriminate|intros H; lra].
  - split; [intros _|reflexivity].
    destruct (Qlt_le_dec a b) as [H|H]; [exact H|].
    apply Qle_bool_iff in H. congruence.
Qed.

Lemma Qltb_false a b : Qltb a b = false <-> b <= a.
Proof.
  destruct (Qltb a b) eqn:E.
  - apply Qltb_true in E. split; [discriminate|intros H; lra].
  - split; [intros _|reflexivity].
    destruct (Qlt_le_dec a b) as [H|H]; [|exact H].
    apply Qltb_true in H. congruence.
Qed.

Lemma pymax0_pos x : 0 < x -> pymax0 x = x.
Proof. intros H. unfold pymax0. apply Qltb_true in H. now rewrite H. Qed.

Lemma pymax0_nonpos x : x <= 0 -> pymax0 x = 0.
Proof. intros H. unfold pymax0. apply Qltb_false in H. now rewrite H. Qed.

Lemma Qltb_0_pymax0 x : Qltb 0 (pymax0 x) = Qltb 0 x.
Proof.
  unfold pymax0. destruct (Qltb 0 x) eqn:E; [exact E|reflexivity].
Qed.

Lemma sleep_quiet w d p c b tr :
  sleep w d (st p c [] b tr) = Done tt (st p (c + d) [] b (tr ++ [Sleep w d])).
Proof. reflexivity. Qed.

Lemma pause_wait_unpaused fuel p c cmds b tr :
  paused p = false ->
  pause_wait fuel (st p c cmds b tr) = Done tt (st p c cmds b tr).
Proof. intros H. destruct fuel; simpl; now rewrite H. Qed.

(** [_execute_event] returns, whatever the event and the controllers do:
    an exception of the lookups or of the controller ends in a printed
    line. *)
Lemma execute_event_eq e p c cmds b tr :
  _execute_event e (st p c cmds b tr)
  = Done tt (st p c cmds (exec_backend e b)
               (tr ++ Exec c e :: exec_obs e b)).
Proof.
  unfold _execute_event, exec_obs, exec_backend, bind, try_except, now, emit,
    lift, st. simpl.
  destruct (event_injection e) as [[i|]|x]; simpl.
  - unfold call_controller. simpl.
    destruct (inject i b) as [b' [x|]]; simpl;
      now rewrite <- !app_assoc.
  - reflexivity.
  - unfold raise. simpl. now rewrite <- !app_assoc.
Qed.

Local Arguments Qplus : simpl never.
Local Arguments Qminus : simpl never.
Local Arguments Qdiv : simpl never.
Local Arguments Qle_bool : simpl never.
Local Arguments Qeq_bool : simpl never.
Local Arguments Qltb : simpl never.
Local Arguments pymax0 : simpl never.
Local Arguments progress : simpl never.
Local Arguments pause_wait : simpl never.
Local Arguments _execute_event : simpl never.
Local Arguments sleep : simpl never.

Lemma for_events_quiet_step fuel cb t0 i e rest p c b tr :
  playing p = true -> paused p = false ->
  Qeq_bool (speed_multiplier p) 0 = false ->
  for_events fuel cb t0 i (e :: rest) (st p c [] b tr)
  = for_events fuel cb t0 (S i) rest
      (st p (arrival p t0 c e) [] (exec_backend e b)
         (tr ++ step_obs cb p t0 c i e b)).
Proof.
  intros Hplay Hpause Hspeed.
  simpl. rewrite Hplay. simpl. unfold bind at 1.
  rewrite pause_wait_unpaused by exact Hpause.
  simpl. rewrite Hplay. simpl. unfold target_time. rewrite Hspeed. simpl.
  unfold bind, ret, now. simpl. fold (delay_at p t0 c e).
  unfold step_obs, arrival, callback_obs.
  destruct (Qltb 0 (delay_at p t0 c e)).
  - rewrite sleep_quiet, execute_event_eq.
    destruct cb; unfold emit, st; simpl; rewrite <- ?app_assoc; simpl;
      rewrite ?app_nil_r; reflexivity.
  - rewrite execute_event_eq.
    destruct cb; unfold emit, st; simpl; rewrite <- ?app_assoc; simpl;
      rewrite ?app_nil_r; reflexivity.
Qed.

(** *** What the projections of a trace do on its pieces *)

Lemma dispatched_app (a b : list obs) :
  dispatched (a ++ b) = dispatched a ++ dispatched b.
Proof.
  induction a as [|o a IH]; simpl; [reflexivity|].
  destruct o; simpl; now rewrite IH.
Qed.

Lemma callbacks_app (a b : list obs) :
  callbacks (a ++ b) = callbacks a ++ callbacks b.
Proof.
  induction a as [|o a IH]; simpl; [reflexivity|].
  destruct o; simpl; now rewrite IH.
Qed.

Lemma sleeps_app (a b : list obs) :
  sleeps (a ++ b) = sleeps a ++ sleeps b.
Proof.
  induction a as [|o a IH]; simpl; [reflexivity|].
  destruct o; simpl; now rewrite IH.
Qed.

Lemma exec_obs_quiet e b :
  dispatched (exec_obs e b) = [] /\ callbacks (exec_obs e b) = []
  /\ sleeps (exec_obs e b) = []
  /\ forall x, ~ In (PrintPlaybackError x) (exec_obs e b).
Proof.
  unfold exec_obs.
  destruct (event_injection e) as [[i|]|x]; simpl.
  - destruct (snd (inject i b)); simpl; repeat split; try reflexivity;
      intros y [H|H]; try discriminate; try destruct H; try discriminate;
      try contradiction.
  - repeat split; intros y [].
  - repeat split; intros y [H|[]]; discriminate.
Qed.

Lemma step_obs_dispatched cb p t0 c i e b :
  dispatched (step_obs cb p t0 c i e b) = [(arrival p t0 c e, e)].
Proof.
  unfold step_obs. rewrite dispatched_app. simpl. rewrite dispatched_app.
  destruct (exec_obs_quiet e b) as (-> & _).
  unfold callback_obs. destruct (Qltb _ _), cb; reflexivity.
Qed.

Lemma step_obs_callbacks cb p t0 c i e b :
  callbacks (step_obs cb p t0 c i e b)
  = if cb then [(progress i (List.length (events p)),
                 (current_loop p + 1)%Z, loop_count p)]
    else [].
Proof.
  unfold step_obs. rewrite callbacks_app. simpl. rewrite callbacks_app.
  destruct (exec_obs_quiet e b) as (_ & -> & _).
  unfold callback_obs. destruct (Qltb _ _), cb; reflexivity.
Qed.

Lemma step_obs_sleeps cb p t0 c i e b :
  sleeps (step_obs cb p t0 c i e b)
  = if Qltb 0 (delay_at p t0 c e) then [(PreEvent, delay_at p t0 c e)]
    else [].
Proof.
  unfold step_obs. rewrite sleeps_app. simpl. rewrite sleeps_app.
  destruct (exec_obs_quiet e b) as (_ & _ & -> & _).
  unfold callback_obs. destruct (Qltb _ _), cb; reflexivity.
Qed.

Lemma step_obs_no_playback_error cb p t0 c i e b x :
  ~ In (PrintPlaybackError x) (step_obs cb p t0 c i e b).
Proof.
  unfold step_obs. intros H.
  apply in_app_or in H. destruct H as [H|H].
  - destruct (Qltb _ _); simpl in H; [destruct H as [H|[]]; discriminate|
                                        contradiction].
  - simpl in H. destruct H as [H|H]; [discriminate|].
    apply in_app_or in H. destruct H as [H|H].
    + now apply (proj2 (proj2 (proj2 (exec_obs_quiet e b))) x).
    + unfold callback_obs in H. destruct cb; simpl in H;
        [destruct H as [H|[]]; discriminate|contradiction].
Qed.

Lemma for_events_quiet fuel cb t0 p :
  playing p = true -> paused p = false ->
  Qeq_bool (speed_multiplier p) 0 = false ->
  forall evs i c b tr,
  exists c' b' new,
    for_events fuel cb t0 i evs (st p c [] b tr)
    = Done tt (st p c' [] b' (tr ++ new))
    /\ map snd (dispatched new) = evs
    /\ callbacks new
       = loop_callbacks cb (List.length (events p)) i (List.length evs)
           (current_loop p + 1) (loop_count p)
    /\ Forall (fun wd => fst wd = PreEvent) (sleeps new)
    /\ (forall x, ~ In (PrintPlaybackError x) new).
Proof.
  intros Hplay Hpause Hspeed.
  induction evs as [|e rest IH]; intros i c b tr.
  - exists c, b, []. rewrite app_nil_r. simpl.
    repeat split; try constructor.
    + unfold loop_callbacks. now destruct cb.
    + intros x [].
  - rewrite (for_events_quiet_step fuel cb t0 i e rest p c b tr Hplay Hpause
               Hspeed).
    destruct (IH (S i) (arrival p t0 c e) (exec_backend e b)
                (tr ++ step_obs cb p t0 c i e b))
      as (c' & b' & new & Hrun & Hd & Hc & Hs & He).
    exists c', b', (step_obs cb p t0 c i e b ++ new).
    rewrite Hrun, app_assoc. split; [reflexivity|].
    rewrite dispatched_app, callbacks_app, sleeps_app, map_app.
    rewrite step_obs_dispatched, step_obs_callbacks, step_obs_sleeps, Hd, Hc.
    repeat split.
    + unfold loop_callbacks. now destruct cb.
    + apply Forall_app. split; [|exact Hs].
      destruct (Qltb _ _); repeat constructor.
    + intros x H. apply in_app_or in H. destruct H as [H|H].
      * now apply step_obs_no_playback_error in H.
      * now apply He in H.
Qed.

Lemma play_sequence_quiet fuel cb p j :
  playing p = true -> paused p = false ->
  Qeq_bool (speed_multiplier p) 0 = false ->
  events p <> [] -> current_loop p = Z.of_nat j ->
  forall c b tr,
  exists c' b' seg,
    _play_sequence fuel cb (st p c [] b tr)
    = Done tt (st p c' [] b' (tr ++ seg))
    /\ pass_ok cb p j seg.
Proof.
  intros Hplay Hpause Hspeed Hne Hcur c b tr.
  destruct (for_events_quiet fuel cb c p Hplay Hpause Hspeed (events p) 0 c b tr)
    as (c' & b' & seg & Hrun & Hd & Hc & Hs & He).
  exists c', b', seg. split.
  - unfold _play_sequence. simpl.
    destruct (events p) as [|e rest] eqn:E; [congruence|].
    unfold bind, now. simpl. exact Hrun.
  - unfold pass_ok. rewrite <- Hcur. repeat split; assumption.
Qed.

Lemma intercalate_cons {A} (sep seg : list A) (segs : list (list A)) :
  segs <> [] ->
  intercalate sep (seg :: segs) = seg ++ sep ++ intercalate sep segs.
Proof. destruct segs; [congruence|reflexivity]. Qed.

Lemma set_current_loop_twice (a b : Z) (p : player) :
  set_current_loop a (set_current_loop b p) = set_current_loop a p.
Proof. reflexivity. Qed.

(** The [while] loop of [play] when nothing is pending: one pass per loop
    left, a settle sleep between two passes. *)
Lemma play_loop_quiet fuel cb p0 :
  playing p0 = true -> paused p0 = false ->
  Qeq_bool (speed_multiplier p0) 0 = false ->
  events p0 <> [] ->
  forall n j c b tr,
  (Z.of_nat j + Z.of_nat n = loop_count p0)%Z ->
  exists c' b' segs,
    play_loop fuel cb n (st (set_current_loop (Z.of_nat j) p0) c [] b tr)
    = Done tt (st (set_current_loop (loop_count p0) p0) c' [] b'
                 (tr ++ intercalate [Sleep Settle (1 # 10)] segs))
    /\ Forall2 (pass_ok cb p0) (seq j n) segs.
Proof.
  intros Hplay Hpause Hspeed Hne.
  induction n as [|n IH]; intros j c b tr Hj.
  - exists c, b, []. simpl. rewrite app_nil_r.
    replace (Z.of_nat j) with (loop_count p0) by lia.
    rewrite Z.ltb_irrefl. simpl. split; [reflexivity|constructor].
  - destruct (play_sequence_quiet fuel cb (set_current_loop (Z.of_nat j) p0) j
                Hplay Hpause Hspeed Hne eq_refl c b tr)
      as (c1 & b1 & seg & Hrun & Hseg).
    cbn [play_loop]. cbn [st self current_loop loop_count playing
                           set_current_loop].
    rewrite Hplay.
    replace (Z.of_nat j <? loop_count p0)%Z with true
      by (symmetry; apply Z.ltb_lt; lia).
    cbn [andb]. unfold bind at 1. fold (st (set_current_loop (Z.of_nat j) p0) c [] b tr).
    rewrite Hrun. unfold bind at 1. unfold modify_self at 1.
    cbn [st self env]. rewrite set_current_loop_twice.
    replace (current_loop (set_current_loop (Z.of_nat j) p0) + 1)%Z
      with (Z.of_nat (S j)) by (simpl current_loop; lia).
    unfold bind at 1. cbn [self current_loop loop_count set_current_loop].
    destruct (Z.of_nat (S j) <? loop_count p0)%Z eqn:Hmore.
    + apply Z.ltb_lt in Hmore.
      fold (st (set_current_loop (Z.of_nat (S j)) p0) c1 [] b1 (tr ++ seg)).
      rewrite sleep_quiet.
      destruct (IH (S j) (c1 + (1 # 10)) b1
                  ((tr ++ seg) ++ [Sleep Settle (1 # 10)]))
        as (c' & b' & segs & Hloop & Hsegs); [lia|].
      exists c', b', (seg :: segs). rewrite Hloop. split.
      * rewrite intercalate_cons.
        -- now rewrite <- !app_assoc.
        -- destruct n; [lia|]. inversion Hsegs. discriminate.
      * constructor; assumption.
    + apply Z.ltb_ge in Hmore.
      fold (st (set_current_loop (Z.of_nat (S j)) p0) c1 [] b1 (tr ++ seg)).
      destruct (IH (S j) c1 b1 (tr ++ seg)) as (c' & b' & segs & Hloop & Hsegs);
        [lia|].
      assert (n = 0%nat) by lia. subst n. inversion Hsegs; subst.
      exists c', b', [seg]. rewrite Hloop. simpl. rewrite app_nil_r.
      split; [reflexivity|]. constructor; [exact Hseg|constructor].
Qed.

Lemma Qeq_bool_false (q : Q) : ~ q == 0 -> Qeq_bool q 0 = false.
Proof.
  intros H. destruct (Qeq_bool q 0) eqn:E; [|reflexivity].
  apply Qeq_bool_iff in E. contradiction.
Qed.

(** [play] when no command is issued and the player is not paused, on a
    log that is not empty and with a speed that is not zero: the passes,
    a settle sleep between two of them, and a normal return. *)
Lemma play_quiet fuel speed loops cb p c b tr :
  paused p = false -> events p <> [] -> ~ speed == 0 -> (0 <= loops)%Z ->
  exists c' b' segs,
    play fuel speed loops cb (st p c [] b tr)
    = Done tt (st (set_playing false
                     (set_current_loop loops (armed p speed loops)))
                 c' [] b' (tr ++ intercalate [Sleep Settle (1 # 10)] segs))
    /\ Forall2 (pass_ok cb (armed p speed loops)) (seq 0 (Z.to_nat loops)) segs.
Proof.
  intros Hpause Hne Hspeed Hloops.
  destruct (play_loop_quiet fuel cb (armed p speed loops) eq_refl Hpause
              (Qeq_bool_false _ Hspeed) Hne (Z.to_nat loops) 0 c b tr)
    as (c' & b' & segs & Hrun & Hsegs).
  { simpl. lia. }
  exists c', b', segs. split; [|exact Hsegs].
  unfold play. unfold bind at 1. unfold sync at 1. simpl deliver.
  cbn [st self env clock pending backend trace events paused].
  change (set_current_loop (Z.of_nat 0) (armed p speed loops))
    with (armed p speed loops) in Hrun.
  unfold st, armed in Hrun. unfold armed. rewrite Hrun. reflexivity.
Qed.

Lemma intercalate_settle_dispatched cb p : forall n j segs,
  Forall2 (pass_ok cb p) (seq j n) segs ->
  map snd (dispatched (intercalate [Sleep Settle (1 # 10)] segs))
  = List.concat (repeat (events p) n).
Proof.
  induction n as [|n IH]; intros j segs H; inversion H as [|? seg ? rest Hseg Hrest];
    subst; [reflexivity|].
  specialize (IH _ _ Hrest). destruct Hseg as (Hd & _).
  destruct rest as [|seg' rest].
  - simpl in *. inversion Hrest as [E|]; subst.
    destruct n; [|discriminate]. simpl. now rewrite app_nil_r.
  - rewrite intercalate_cons by discriminate.
    set (later := intercalate _ (seg' :: rest)) in *.
    rewrite dispatched_app, map_app, Hd.
    change (dispatched ([Sleep Settle (1 # 10)] ++ later))
      with (dispatched later).
    now rewrite IH.
Qed.

Lemma intercalate_settle_no_playback_error cb p x : forall n j segs,
  Forall2 (pass_ok cb p) (seq j n) segs ->
  ~ In (PrintPlaybackError x) (intercalate [Sleep Settle (1 # 10)] segs).
Proof.
  induction n as [|n IH]; intros j segs H; inversion H as [|? seg ? rest Hseg Hrest];
    subst; [intros []|].
  specialize (IH _ _ Hrest). destruct Hseg as (_ & _ & _ & He).
  destruct rest as [|seg' rest].
  - simpl. apply He.
  - rewrite intercalate_cons by discriminate. intros Hin.
    apply in_app_or in Hin. destruct Hin as [Hin|Hin]; [now apply He in Hin|].
    simpl in Hin. destruct Hin as [Hin|Hin]; [discriminate|].
    now apply IH in Hin.
Qed.

Lemma concat_repeat_length {A} (l : list A) (n : nat) :
  List.length (List.concat (repeat l n)) = (n * List.length l)%nat.
Proof.
  induction n as [|n IH]; simpl; [reflexivity|].
  now rewrite length_app, IH.
Qed.


(** C8. [_execute_event] returns normally whatever the event and the
    controllers do: when a lookup of the event's data raises (an invalid
    button name, a missing field), or the controller refuses the call (an
    unresolved key symbol), the exception is printed and goes no further.
    So on every log, with no command issued and a speed that is not zero,
    [play] returns with every event of the log executed in order, in each
    loop, and prints no playback error. *)
Theorem dispatch_failure_contained :
  (forall (e : event) (s : pstate),
     exists s',
       _execute_event e s = Done tt s'
       /\ (forall x, event_injection e = Raise x ->
                     In (PrintExecError (ev_type e) x) (trace (env s')))
       /\ (forall i x, event_injection e = Ok (Some i) ->
                       snd (inject i (backend (env s))) = Some x ->
                       In (PrintExecError (ev_type e) x) (trace (env s'))))
  /\ (forall (fuel : nat) (speed : Q) (N : Z) (cb : bool) (log : list event)
             (t0 : Q) (b : Backend),
        log <> [] -> (1 <= N)%Z -> ~ speed == 0 ->
        exists s',
          play fuel speed N cb (fresh log t0 [] b) = Done tt s'
          /\ map snd (dispatched (trace (env s')))
             = List.concat (repeat log (Z.to_nat N))
          /\ (forall x, ~ In (PrintPlaybackError x) (trace (env s')))).
Proof.
  split.
  - intros e [p [c cmds b tr]]. fold (st p c cmds b tr).
    rewrite execute_event_eq. eexists. split; [reflexivity|].
    cbn [st env trace backend]. unfold exec_obs. split.
    + intros x Hx. rewrite Hx. apply in_or_app. right. simpl. auto.
    + intros i x Hi Hx. rewrite Hi, Hx. apply in_or_app. right. simpl. auto.
  - intros fuel speed N cb log t0 b Hne HN Hspeed.
    destruct (play_quiet fuel speed N cb (init log) t0 b [] eq_refl Hne Hspeed)
      as (c' & b' & segs & Hrun & Hsegs); [lia|].
    eexists. split; [exact Hrun|]. cbn [st env trace app]. split.
    + apply (intercalate_settle_dispatched _ _ _ _ _ Hsegs).
    + intros x. apply (intercalate_settle_no_playback_error _ _ x _ _ _ Hsegs).
Qed.

(** *** Commands of the other thread *)

Lemma deliver_fields now : forall cmds p,
  events (fst (deliver now cmds p)) = events p
  /\ speed_multiplier (fst (deliver now cmds p)) = speed_multiplier p
  /\ loop_count (fst (deliver now cmds p)) = loop_count p
  /\ current_loop (fst (deliver now cmds p)) = current_loop p.
Proof.
  induction cmds as [|[t cmd] rest IH]; intros p; simpl; [repeat split|].
  destruct (Qle_bool t now).
  - destruct (IH (apply_command cmd p)) as (H1 & H2 & H3 & H4).
    rewrite H1, H2, H3, H4. destruct cmd; repeat split.
  - destruct (deliver now rest p) as [p' rest'] eqn:E. simpl.
    specialize (IH p). now rewrite E in IH.
Qed.

Lemma sleep_eq w d p c cmds b tr :
  sleep w d (st p c cmds b tr)
  = Done tt (st (fst (deliver (c + d) cmds p)) (c + d)
               (snd (deliver (c + d) cmds p)) b (tr ++ [Sleep w d])).
Proof.
  unfold sleep, bind, emit, advance, sync, st. simpl.
  now destruct (deliver (c + d) cmds p).
Qed.

Lemma play_sequence_empty fuel cb s :
  events (self s) = [] -> _play_sequence fuel cb s = Done tt s.
Proof. intros H. unfold _play_sequence. now rewrite H. Qed.

(** The [while] loop of [play] on an empty log: nothing but settle
    sleeps. *)
Lemma play_loop_empty fuel cb : forall n p c cmds b tr,
  events p = [] ->
  (loop_count p - current_loop p <= Z.of_nat n)%Z ->
  exists p' c' cmds' k,
    play_loop fuel cb n (st p c cmds b tr)
    = Done tt (st p' c' cmds' b (tr ++ repeat (Sleep Settle (1 # 10)) k))
    /\ (k <= Z.to_nat (loop_count p - current_loop p - 1))%nat
    /\ (cmds = [] -> playing p = true ->
        k = Z.to_nat (loop_count p - current_loop p - 1)).
Proof.
  induction n as [|n IH]; intros p c cmds b tr Hev Hn.
  - exists p, c, cmds, 0%nat. simpl.
    replace (current_loop p <? loop_count p)%Z with false
      by (symmetry; apply Z.ltb_ge; lia).
    simpl. rewrite app_nil_r. repeat split; lia.
  - cbn [play_loop]. cbn [st self].
    destruct ((current_loop p <? loop_count p)%Z && playing p) eqn:Hcond.
    + apply andb_true_iff in Hcond. destruct Hcond as [Hlt Hplay].
      apply Z.ltb_lt in Hlt.
      unfold bind at 1. fold (st p c cmds b tr).
      rewrite play_sequence_empty by exact Hev.
      unfold bind at 1. unfold modify_self at 1. cbn [st self env].
      unfold bind at 1. cbn [self current_loop loop_count set_current_loop].
      destruct (current_loop p + 1 <? loop_count p)%Z eqn:Hmore.
      * apply Z.ltb_lt in Hmore.
        fold (st (set_current_loop (current_loop p + 1) p) c cmds b tr).
        rewrite sleep_eq.
        set (p1 := set_current_loop (current_loop p + 1) p).
        destruct (deliver_fields (c + (1 # 10)) cmds p1) as (E1 & _ & E3 & E4).
        destruct (IH (fst (deliver (c + (1 # 10)) cmds p1)) (c + (1 # 10))
                    (snd (deliver (c + (1 # 10)) cmds p1)) b
                    (tr ++ [Sleep Settle (1 # 10)]))
          as (p' & c' & cmds' & k & Hrun & Hk & Hex).
        { now rewrite E1. }
        { rewrite E3, E4. simpl. lia. }
        exists p', c', cmds', (S k). rewrite Hrun.
        rewrite E3, E4 in Hk, Hex. simpl in Hk, Hex. split; [|split].
        -- now rewrite <- app_assoc.
        -- lia.
        -- intros -> Hp. simpl in Hex. rewrite Hex by (reflexivity || exact Hp).
           lia.
      * apply Z.ltb_ge in Hmore.
        fold (st (set_current_loop (current_loop p + 1) p) c cmds b tr).
        destruct (IH (set_current_loop (current_loop p + 1) p) c cmds b tr)
          as (p' & c' & cmds' & k & Hrun & Hk & Hex).
        { exact Hev. }
        { simpl. lia. }
        exists p', c', cmds', k. rewrite Hrun. simpl in Hk.
        split; [reflexivity|]. split; [lia|]. intros _ _. lia.
    + exists p, c, cmds, 0%nat. rewrite app_nil_r.
      split; [reflexivity|]. split; [lia|].
      intros _ Hp. rewrite Hp, andb_true_r in Hcond.
      apply Z.ltb_ge in Hcond. lia.
Qed.

Lemma dispatched_settles k :
  dispatched (repeat (Sleep Settle (1 # 10)) k) = [].
Proof. induction k; simpl; [reflexivity|assumption]. Qed.

Lemma callbacks_settles k :
  callbacks (repeat (Sleep Settle (1 # 10)) k) = [].
Proof. induction k; simpl; [reflexivity|assumption]. Qed.

(** [play], unfolded: the commands due at the start, the loop, and the
    [except] and [finally] clauses. *)
Lemma play_eq fuel speed loops cb p c cmds b tr :
  play fuel speed loops cb (st p c cmds b tr)
  = match play_loop fuel cb (Z.to_nat loops)
            (st (fst (deliver c cmds (armed p speed loops))) c
               (snd (deliver c cmds (armed p speed loops))) b tr) with
    | Done _ s' =>
        Done tt {| self := set_playing false (self s'); env := env s' |}
    | Raised e s' =>
        Done tt (st (set_playing false (self s')) (clock (env s'))
                   (pending (env s')) (backend (env s'))
                   (trace (env s') ++ [PrintPlaybackError e]))
    | OutOfFuel => OutOfFuel
    end.
Proof.
  unfold play, bind, sync, armed, st. simpl.
  destruct (deliver c cmds _) as [p1 cmds1]. simpl.
  destruct (play_loop fuel cb (Z.to_nat loops) _); reflexivity.
Qed.

(** C6, as the code has it. [play] on an empty log returns, for every
    speed, loop count and fuel, whatever commands are issued, having
    executed no event and called no callback: all it does is the settle
    sleep of 100 ms between two loops, [loops - 1] times when no command is
    issued (never more), so it returns at once only for [loops <= 1]. *)
Theorem play_empty_log_only_settles (fuel : nat) (speed : Q) (loops : Z)
    (cb : bool) (s : pstate) :
  events (self s) = [] ->
  exists s' k,
    play fuel speed loops cb s = Done tt s'
    /\ trace (env s') = trace (env s) ++ repeat (Sleep Settle (1 # 10)) k
    /\ dispatched (trace (env s')) = dispatched (trace (env s))
    /\ callbacks (trace (env s')) = callbacks (trace (env s))
    /\ backend (env s') = backend (env s)
    /\ (k <= Z.to_nat (loops - 1))%nat
    /\ (pending (env s) = [] -> k = Z.to_nat (loops - 1)).
Proof.
  destruct s as [p [c cmds b tr]]. cbn [self env trace backend pending].
  intros Hev.
  set (p0 := armed p speed loops).
  destruct (deliver_fields c cmds p0) as (E1 & _ & E3 & E4).
  destruct (play_loop_empty fuel cb (Z.to_nat loops) (fst (deliver c cmds p0)) c
              (snd (deliver c cmds p0)) b tr)
    as (p' & c' & cmds' & k & Hrun & Hk & Hex).
  { now rewrite E1. }
  { rewrite E3, E4. simpl. lia. }
  rewrite E3, E4 in Hk, Hex. simpl in Hk, Hex.
  eexists. exists k. split; [|split; [|split; [|split; [|split; [|split]]]]].
  - fold (st p c cmds b tr). rewrite play_eq. fold p0. rewrite Hrun.
    reflexivity.
  - reflexivity.
  - cbn [st env trace]. rewrite dispatched_app, dispatched_settles.
    apply app_nil_r.
  - cbn [st env trace]. rewrite callbacks_app, callbacks_settles.
    apply app_nil_r.
  - reflexivity.
  - replace (loops - 1)%Z with (loops - 0 - 1)%Z by lia. exact Hk.
  - intros ->. simpl in Hex.
    replace (loops - 1)%Z with (loops - 0 - 1)%Z by lia.
    apply Hex; reflexivity.
Qed.

(** *** A speed of zero, a loop count of zero *)

Lemma idle_refl s : idle s s.
Proof. now split. Qed.

Lemma idle_trans s1 s2 s3 : idle s1 s2 -> idle s2 s3 -> idle s1 s3.
Proof. intros [A B] [C D]. split; congruence. Qed.

Lemma idle_outcome_trans s1 s2 o :
  idle s1 s2 -> idle_outcome s2 o -> idle_outcome s1 o.
Proof.
  intros H. destruct o; simpl; try (apply idle_trans; exact H). trivial.
Qed.

Lemma sleep_idle w d p c cmds b tr :
  exists s', sleep w d (st p c cmds b tr) = Done tt s'
             /\ idle (st p c cmds b tr) s'
             /\ current_loop (self s') = current_loop p
             /\ loop_count (self s') = loop_count p
             /\ events (self s') = events p.
Proof.
  rewrite sleep_eq. eexists. split; [reflexivity|].
  destruct (deliver_fields (c + d) cmds p) as (E1 & E2 & E3 & E4).
  unfold idle. cbn [st self env trace]. rewrite dispatched_app. simpl.
  rewrite app_nil_r. repeat split; assumption.
Qed.

Lemma pause_wait_idle : forall fuel s, idle_outcome s (pause_wait fuel s).
Proof.
  induction fuel as [|fuel IH]; intros [p [c cmds b tr]];
    unfold pause_wait; fold pause_wait; cbn [self].
  - destruct (paused p && playing p); simpl; [trivial|apply idle_refl].
  - destruct (paused p && playing p); [|apply idle_refl].
    unfold bind. fold (st p c cmds b tr).
    destruct (sleep_idle PausePoll (1 # 10) p c cmds b tr)
      as (s1 & -> & Hidle & _).
    eapply idle_outcome_trans; [exact Hidle|apply IH].
Qed.

Lemma for_events_zero_speed fuel cb t0 : forall evs i s,
  Qeq_bool (speed_multiplier (self s)) 0 = true ->
  idle_outcome s (for_events fuel cb t0 i evs s).
Proof.
  intros evs i s Hz. destruct evs as [|e rest]; [apply idle_refl|].
  cbn [for_events].
  destruct (playing (self s)); cbn [negb]; [|apply idle_refl].
  unfold bind at 1.
  pose proof (pause_wait_idle fuel s) as Hw.
  destruct (pause_wait fuel s) as [[] s1|x s1|]; simpl in Hw |- *;
    [|exact Hw|trivial].
  destruct (playing (self s1)); cbn [negb]; [|exact Hw].
  unfold target_time. destruct Hw as [Hd Hs]. rewrite Hs, Hz.
  simpl. split; assumption.
Qed.

Lemma play_loop_zero_speed fuel cb : forall n s,
  Qeq_bool (speed_multiplier (self s)) 0 = true ->
  idle_outcome s (play_loop fuel cb n s).
Proof.
  induction n as [|n IH]; intros s Hz; cbn [play_loop];
    destruct ((current_loop (self s) <? loop_count (self s))%Z
              && playing (self s)); try apply idle_refl; [exact I|].
  unfold bind at 1.
  assert (Hseq : idle_outcome s (_play_sequence fuel cb s)).
  { unfold _play_sequence. destruct (events (self s)) eqn:E; [apply idle_refl|].
    unfold bind, now. rewrite <- E. now apply for_events_zero_speed. }
  destruct (_play_sequence fuel cb s) as [[] s1|x s1|]; simpl in Hseq |- *;
    [|exact Hseq|trivial].
  unfold bind at 1. unfold modify_self at 1.
  destruct s1 as [p1 [c1 cmds1 b1 tr1]]. cbn [self env].
  unfold bind at 1. cbn [self current_loop loop_count set_current_loop].
  set (p2 := set_current_loop (current_loop p1 + 1) p1).
  assert (H2 : idle s (st p2 c1 cmds1 b1 tr1)) by exact Hseq.
  destruct (current_loop p1 + 1 <? loop_count p1)%Z.
  - fold (st p2 c1 cmds1 b1 tr1).
    destruct (sleep_idle Settle (1 # 10) p2 c1 cmds1 b1 tr1)
      as (s3 & -> & H3 & _).
    eapply idle_outcome_trans; [exact (idle_trans _ _ _ H2 H3)|].
    apply IH. destruct H2 as [_ E2], H3 as [_ E3]. rewrite E3, E2. exact Hz.
  - fold (st p2 c1 cmds1 b1 tr1).
    eapply idle_outcome_trans; [exact H2|].
    apply IH. destruct H2 as [_ E2]. rewrite E2. exact Hz.
Qed.

Lemma Qeq_bool_true (q : Q) : q == 0 -> Qeq_bool q 0 = true.
Proof. intros H. now apply Qeq_bool_iff. Qed.

(** With a speed of zero [play] executes no event. *)
Lemma play_zero_speed fuel speed loops cb s :
  speed == 0 ->
  match play fuel speed loops cb s with
  | Done _ s' => dispatched (trace (env s')) = dispatched (trace (env s))
  | Raised _ _ => False
  | OutOfFuel => True
  end.
Proof.
  intros Hz. destruct s as [p [c cmds b tr]]. fold (st p c cmds b tr).
  rewrite play_eq.
  set (s0 := st (fst (deliver c cmds (armed p speed loops))) c
               (snd (deliver c cmds (armed p speed loops))) b tr).
  pose proof (play_loop_zero_speed fuel cb (Z.to_nat loops) s0) as H.
  destruct (deliver_fields c cmds (armed p speed loops)) as (_ & E2 & _).
  specialize (H ltac:(unfold s0; cbn [st self]; rewrite E2;
                      now apply Qeq_bool_true)).
  destruct (play_loop fuel cb (Z.to_nat loops) s0) as [[] s1|x s1|];
    simpl in H |- *; [| |trivial].
  - exact (proj1 H).
  - rewrite dispatched_app. simpl. rewrite app_nil_r. exact (proj1 H).
Qed.

(** With a loop count of zero or less [play] does nothing but store its
    arguments. *)
Lemma play_no_loops fuel speed loops cb p c cmds b tr :
  (loops <= 0)%Z ->
  play fuel speed loops cb (st p c cmds b tr)
  = Done tt (st (set_playing false (fst (deliver c cmds (armed p speed loops))))
               c (snd (deliver c cmds (armed p speed loops))) b tr).
Proof.
  intros Hl. rewrite play_eq.
  replace (Z.to_nat loops) with 0%nat by lia.
  destruct (deliver_fields c cmds (armed p speed loops)) as (_ & _ & E3 & E4).
  cbn [play_loop st self]. rewrite E3, E4. cbn [armed loop_count current_loop].
  replace (0 <? loops)%Z with false by (symmetry; apply Z.ltb_ge; lia).
  reflexivity.
Qed.

(** With a speed of zero, on a log that is not empty and with no command
    issued, the division of the first delay raises, and [play] prints
    it. *)
Lemma play_zero_speed_raises fuel speed loops cb p c b tr :
  speed == 0 -> events p <> [] -> paused p = false -> (1 <= loops)%Z ->
  play fuel speed loops cb (st p c [] b tr)
  = Done tt (st (set_playing false (armed p speed loops)) c [] b
               (tr ++ [PrintPlaybackError ZeroDivisionError])).
Proof.
  intros Hz Hne Hpause Hl. rewrite play_eq. cbn [deliver fst snd].
  destruct (Z.to_nat loops) as [|n] eqn:En; [lia|].
  destruct (events p) as [|e rest] eqn:E; [congruence|].
  unfold armed, st. simpl. rewrite E. simpl.
  replace (0 <? loops)%Z with true by (symmetry; apply Z.ltb_lt; lia).
  simpl. unfold bind at 1. unfold _play_sequence. simpl.
  unfold bind at 1. simpl. unfold bind at 1.
  match goal with
  | |- context [pause_wait fuel ?s] =>
      change s with (st (self s) (clock (env s)) (pending (env s))
                       (backend (env s)) (trace (env s)))
  end.
  rewrite pause_wait_unpaused by exact Hpause.
  simpl. unfold target_time. rewrite (Qeq_bool_true _ Hz). reflexivity.
Qed.

(** C3, as the code has it. [play] does not validate its arguments; it
    stores them and starts. With [loops <= 0] the loop body never runs:
    [play] returns with nothing executed, no sleep, nothing printed.
    With a speed of zero no event is executed either; on a log that is not
    empty, with no command issued, the division of the first delay
    computation raises [ZeroDivisionError], which [play] catches and
    prints. A negative speed is accepted, and the whole log is executed,
    [loops] times. *)
Theorem unvalidated_speed_and_loops :
  (forall (fuel : nat) (speed : Q) (loops : Z) (cb : bool) (s : pstate),
     (loops <= 0)%Z ->
     exists s',
       play fuel speed loops cb s = Done tt s'
       /\ trace (env s') = trace (env s)
       /\ clock (env s') = clock (env s)
       /\ backend (env s') = backend (env s)
       /\ speed_multiplier (self s') = speed
       /\ loop_count (self s') = loops)
  /\ (forall (fuel : nat) (speed : Q) (loops : Z) (cb : bool) (s : pstate),
        speed == 0 ->
        match play fuel speed loops cb s with
        | Done _ s' => dispatched (trace (env s')) = dispatched (trace (env s))
        | Raised _ _ => False
        | OutOfFuel => True
        end)
  /\ (forall (fuel : nat) (speed : Q) (loops : Z) (cb : bool)
             (log : list event) (t0 : Q) (b : Backend),
        speed == 0 -> log <> [] -> (1 <= loops)%Z ->
        exists s',
          play fuel speed loops cb (fresh log t0 [] b) = Done tt s'
          /\ trace (env s') = [PrintPlaybackError ZeroDivisionError]
          /\ speed_multiplier (self s') = speed
          /\ loop_count (self s') = loops)
  /\ (forall (fuel : nat) (speed : Q) (loops : Z) (cb : bool)
             (log : list event) (t0 : Q) (b : Backend),
        speed < 0 -> log <> [] -> (1 <= loops)%Z ->
        exists s',
          play fuel speed loops cb (fresh log t0 [] b) = Done tt s'
          /\ map snd (dispatched (trace (env s')))
             = List.concat (repeat log (Z.to_nat loops))).
Proof.
  split; [|split; [|split]].
  - intros fuel speed loops cb [p [c cmds b tr]] Hl.
    fold (st p c cmds b tr). rewrite play_no_loops by exact Hl.
    eexists. split; [reflexivity|].
    destruct (deliver_fields c cmds (armed p speed loops)) as (_ & E2 & E3 & _).
    cbn [st self env trace clock backend set_playing speed_multiplier
         loop_count].
    rewrite E2, E3. repeat split.
  - intros fuel speed loops cb s Hz. now apply play_zero_speed.
  - intros fuel speed loops cb log t0 b Hz Hne Hl.
    unfold fresh. fold (st (init log) t0 [] b []).
    rewrite play_zero_speed_raises; try assumption; try reflexivity.
    eexists. split; [reflexivity|]. repeat split.
  - intros fuel speed loops cb log t0 b Hneg Hne Hl.
    destruct (play_quiet fuel speed loops cb (init log) t0 b [] eq_refl Hne)
      as (c' & b' & segs & Hrun & Hsegs); [intros H; lra|lia|].
    eexists. split; [exact Hrun|]. cbn [st env trace app].
    apply (intercalate_settle_dispatched _ _ _ _ _ Hsegs).
Qed.

(** *** A stop during the delay before an event *)

Lemma for_events_stopped fuel cb t0 i evs s :
  playing (self s) = false -> for_events fuel cb t0 i evs s = Done tt s.
Proof. intros H. destruct evs; simpl; [reflexivity|now rewrite H]. Qed.

Lemma stop_during_delay fuel cb t0 i e rest p c b tr ts :
  playing p = true -> paused p = false -> ~ speed_multiplier p == 0 ->
  c < ts -> ts <= t0 + ev_time e / speed_multiplier p ->
  for_events fuel cb t0 i (e :: rest) (st p c [(ts, Stop)] b tr)
  = Done tt
      (st (stop p) (c + (ev_time e / speed_multiplier p - (c - t0))) []
         (exec_backend e b)
         (tr ++ Sleep PreEvent (ev_time e / speed_multiplier p - (c - t0))
             :: Exec (c + (ev_time e / speed_multiplier p - (c - t0))) e
             :: exec_obs e b ++ callback_obs cb p i)).
Proof.
  intros Hplay Hpause Hspeed Hc Hts.
  set (d := ev_time e / speed_multiplier p - (c - t0)).
  assert (Hd : 0 < d) by (unfold d; lra).
  simpl. rewrite Hplay. simpl. unfold bind at 1.
  rewrite pause_wait_unpaused by exact Hpause.
  simpl. rewrite Hplay. simpl. unfold target_time.
  rewrite (Qeq_bool_false _ Hspeed). simpl.
  unfold bind at 1. unfold ret at 1. unfold bind at 1. unfold now at 1.
  simpl. fold d. rewrite (pymax0_pos d Hd).
  rewrite (proj2 (Qltb_true 0 d) Hd).
  unfold bind at 1. rewrite sleep_eq. simpl deliver.
  replace (Qle_bool ts (c + d)) with true
    by (symmetry; apply Qle_bool_iff; unfold d; lra).
  cbn [fst snd apply_command].
  unfold bind at 1. rewrite execute_event_eq.
  unfold bind at 1. unfold callback_obs.
  destruct cb.
  - unfold emit, st. simpl.
    rewrite for_events_stopped by reflexivity.
    rewrite <- !app_assoc. reflexivity.
  - unfold ret. rewrite for_events_stopped by reflexivity.
    unfold st. rewrite <- !app_assoc. simpl. rewrite app_nil_r. reflexivity.
Qed.

(** C4, as the code has it. When [stop] is called during the delay before
    an event, at [ts], the loop does not notice before the delay is over:
    the delay is one sleep of its whole length [d], the event is executed
    when it ends, at or after [ts], and only then does the loop stop,
    with nothing further executed. *)
Theorem stop_waits_for_event_boundary (fuel : nat) (cb : bool) (t0 : Q)
    (i : nat) (e : event) (rest : list event) (p : player) (c : Q)
    (b : Backend) (tr : list obs) (ts : Q) :
  playing p = true -> paused p = false -> ~ speed_multiplier p == 0 ->
  c < ts -> ts <= t0 + ev_time e / speed_multiplier p ->
  exists s' new,
    for_events fuel cb t0 i (e :: rest) (st p c [(ts, Stop)] b tr) = Done tt s'
    /\ trace (env s') = tr ++ new
    /\ sleeps new
       = [(PreEvent, ev_time e / speed_multiplier p - (c - t0))]
    /\ dispatched new
       = [(c + (ev_time e / speed_multiplier p - (c - t0)), e)]
    /\ ts <= c + (ev_time e / speed_multiplier p - (c - t0))
    /\ playing (self s') = false.
Proof.
  intros Hplay Hpause Hspeed Hc Hts.
  rewrite stop_during_delay by assumption.
  eexists. eexists. split; [reflexivity|]. split; [reflexivity|].
  destruct (exec_obs_quiet e b) as (Hd & _ & Hs & _).
  split; [|split; [|split]].
  - simpl. rewrite sleeps_app, Hs. unfold callback_obs. now destruct cb.
  - simpl. rewrite dispatched_app, Hd. unfold callback_obs. now destruct cb.
  - lra.
  - reflexivity.
Qed.

(** *** Pause and resume *)

Lemma after_polls_succ c k : after_polls c (S k) == after_polls c k + (1 # 10).
Proof.
  unfold after_polls. rewrite Nat2Z.inj_succ. unfold Z.succ.
  rewrite inject_Z_plus. change (inject_Z 1) with 1. lra.
Qed.

Lemma after_polls_shift c k :
  after_polls (c + (1 # 10)) k == after_polls c (S k).
Proof. rewrite after_polls_succ. unfold after_polls. lra. Qed.

Lemma after_polls_0 c : after_polls c 0 == c.
Proof. unfold after_polls. change (inject_Z (Z.of_nat 0)) with 0. lra. Qed.

Lemma after_polls_ge c k : c <= after_polls c k.
Proof.
  induction k as [|k IH].
  - rewrite after_polls_0. lra.
  - rewrite after_polls_succ. lra.
Qed.

(** The pause wait of a paused player that is resumed at [tres]: it polls
    every 100 ms and leaves at the first poll at or after [tres]. *)
Lemma pause_wait_resume p b tres : playing p = true -> paused p = true ->
  forall k fuel c tr,
  (S k <= fuel)%nat ->
  after_polls c k < tres -> tres <= after_polls c (S k) ->
  exists c',
    pause_wait fuel (st p c [(tres, Resume)] b tr)
    = Done tt (st (resume p) c' [] b
                 (tr ++ repeat (Sleep PausePoll (1 # 10)) (S k)))
    /\ c' == after_polls c (S k).
Proof.
  intros Hplay Hpause.
  induction k as [|k IH]; intros fuel c tr Hfuel Hlo Hhi;
    (destruct fuel as [|fuel]; [lia|]).
  - unfold pause_wait; fold pause_wait. cbn [st self].
    rewrite Hplay, Hpause. cbn [andb]. unfold bind.
    fold (st p c [(tres, Resume)] b tr). rewrite sleep_eq. simpl deliver.
    replace (Qle_bool tres (c + (1 # 10))) with true.
    + cbn [fst snd apply_command].
      rewrite pause_wait_unpaused by reflexivity.
      exists (c + (1 # 10)). split; [reflexivity|].
      rewrite after_polls_succ, after_polls_0. reflexivity.
    + symmetry. apply Qle_bool_iff.
      rewrite after_polls_succ, after_polls_0 in Hhi. exact Hhi.
  - unfold pause_wait; fold pause_wait. cbn [st self].
    rewrite Hplay, Hpause. cbn [andb]. unfold bind.
    fold (st p c [(tres, Resume)] b tr). rewrite sleep_eq. simpl deliver.
    pose proof (after_polls_ge (c + (1 # 10)) k) as Hge.
    rewrite after_polls_shift in Hge.
    replace (Qle_bool tres (c + (1 # 10))) with false.
    + cbn [fst snd].
      destruct (deliver (c + (1 # 10)) [] p) as [p' rest'] eqn:E.
      simpl in E. injection E as <- <-. cbn [fst snd].
      destruct (IH fuel (c + (1 # 10)) (tr ++ [Sleep PausePoll (1 # 10)]))
        as (c' & Hrun & Hc').
      * lia.
      * rewrite after_polls_shift. exact Hlo.
      * rewrite after_polls_shift. exact Hhi.
      * exists c'. rewrite Hrun. split.
        -- rewrite <- app_assoc. reflexivity.
        -- rewrite Hc'. apply after_polls_shift.
    + symmetry. destruct (Qle_bool tres (c + (1 # 10))) eqn:E; [|reflexivity].
      apply Qle_bool_iff in E. lra.
Qed.

(** The target of an event does not decrease along a log in time order,
    the speed being positive. *)
Lemma target_monotone (sp a b : Q) : 0 < sp -> a <= b -> a / sp <= b / sp.
Proof.
  intros Hsp Hab. unfold Qdiv.
  apply Qmult_le_compat_r; [exact Hab|].
  apply Qlt_le_weak. now apply Qinv_lt_0_compat.
Qed.

Lemma arrival_max p t0 c e :
  arrival p t0 c e == Qmax c (t0 + ev_time e / speed_multiplier p).
Proof.
  unfold arrival, delay_at. rewrite Qltb_0_pymax0.
  set (x := ev_time e / speed_multiplier p).
  destruct (Qltb 0 (x - (c - t0))) eqn:E.
  - apply Qltb_true in E. rewrite (pymax0_pos _ E).
    rewrite Q.max_r by lra. lra.
  - apply Qltb_false in E. rewrite Q.max_l by lra. reflexivity.
Qed.

Lemma Qmax_absorb (cr c x : Q) :
  cr <= c -> c <= Qmax cr x -> Qmax c x == Qmax cr x.
Proof.
  intros H1 H2.
  destruct (Q.max_spec cr x) as [[Ha Hb]|[Ha Hb]];
    destruct (Q.max_spec c x) as [[Hc Hd]|[Hc Hd]]; lra.
Qed.

(** After a resume seen at clock reading [cr], with nothing pending: each
    event of a log in time order is executed at the later of [cr] and its
    place in the schedule of the loop, [t0 + time / speed]. *)
Lemma schedule_after_resume fuel cb t0 p cr :
  playing p = true -> paused p = false -> 0 < speed_multiplier p ->
  forall evs i c b tr,
  cr <= c ->
  Forall (fun e => c <= Qmax cr (t0 + ev_time e / speed_multiplier p)) evs ->
  StronglySorted (fun a b => ev_time a <= ev_time b) evs ->
  exists c' b' new,
    for_events fuel cb t0 i evs (st p c [] b tr)
    = Done tt (st p c' [] b' (tr ++ new))
    /\ Forall2
         (fun d e =>
            snd d = e
            /\ fst d == Qmax cr (t0 + ev_time e / speed_multiplier p))
         (dispatched new) evs.
Proof.
  intros Hplay Hpause Hspeed.
  assert (Hnz : Qeq_bool (speed_multiplier p) 0 = false)
    by (apply Qeq_bool_false; intros H; lra).
  induction evs as [|e rest IH]; intros i c b tr Hcr Hall Hsorted.
  - exists c, b, []. rewrite app_nil_r. split; [reflexivity|constructor].
  - rewrite (for_events_quiet_step fuel cb t0 i e rest p c b tr Hplay Hpause
               Hnz).
    inversion Hall as [|? ? He Hrest]; subst.
    inversion Hsorted as [|? ? Hsorted' Hle]; subst.
    assert (Ha : arrival p t0 c e
                 == Qmax cr (t0 + ev_time e / speed_multiplier p)).
    { rewrite arrival_max. now apply Qmax_absorb. }
    destruct (IH (S i) (arrival p t0 c e) (exec_backend e b)
                (tr ++ step_obs cb p t0 c i e b))
      as (c' & b' & new & Hrun & Htimes).
    + rewrite Ha. apply Q.le_max_l.
    + rewrite Forall_forall in Hle |- *. intros e' Hin.
      rewrite Ha. apply Q.max_le_compat_l.
      pose proof (target_monotone _ _ _ Hspeed (Hle e' Hin)). lra.
    + exact Hsorted'.
    + exists c', b', (step_obs cb p t0 c i e b ++ new).
      rewrite Hrun, app_assoc. split; [reflexivity|].
      rewrite dispatched_app, step_obs_dispatched. simpl.
      constructor; [split; [reflexivity|exact Ha]|exact Htimes].
Qed.

Lemma for_events_after_wait fuel cb t0 i e rest s p2 c2 b2 tr2 :
  playing (self s) = true ->
  pause_wait fuel s = Done tt (st p2 c2 [] b2 tr2) ->
  paused p2 = false ->
  for_events fuel cb t0 i (e :: rest) s
  = for_events fuel cb t0 i (e :: rest) (st p2 c2 [] b2 tr2).
Proof.
  intros Hplay Hwait Hpause.
  cbn [for_events]. rewrite Hplay. cbn [negb].
  unfold bind at 1. rewrite Hwait.
  destruct (playing (self (st p2 c2 [] b2 tr2))) eqn:E; cbn [negb];
    [|reflexivity].
  symmetry. unfold bind at 1. rewrite pause_wait_unpaused by exact Hpause.
  rewrite E. reflexivity.
Qed.

Lemma dispatched_polls k : dispatched (repeat (Sleep PausePoll (1 # 10)) k) = [].
Proof. induction k; simpl; [reflexivity|assumption]. Qed.

(** C1, as the code has it. The clock of a loop runs on while the player is
    paused: its origin [t0] is not moved by a pause. When the loop, paused
    at clock reading [c], is resumed at [tres], it sees the resume at the
    next poll of the pause wait, at [cr], [k] polls of 100 ms after [c];
    every event left of a log in time order is then executed at the later
    of [cr] and its place [t0 + time / speed] in the schedule of the loop:
    at once, with no delay, if the pause ran past that place, and otherwise
    where the schedule without a pause has it, not later by the length of
    the pause. *)
Theorem pause_does_not_shift_schedule (fuel : nat) (cb : bool) (t0 : Q)
    (i : nat) (e : event) (rest : list event) (p : player) (c : Q)
    (b : Backend) (tr : list obs) (tres : Q) (k : nat) :
  playing p = true -> paused p = true -> 0 < speed_multiplier p ->
  (S k <= fuel)%nat ->
  after_polls c k < tres -> tres <= after_polls c (S k) ->
  StronglySorted (fun a b => ev_time a <= ev_time b) (e :: rest) ->
  exists s' cr new,
    for_events fuel cb t0 i (e :: rest) (st p c [(tres, Resume)] b tr)
    = Done tt s'
    /\ cr == after_polls c (S k)
    /\ trace (env s') = tr ++ new
    /\ Forall2
         (fun d ev =>
            snd d = ev
            /\ fst d == Qmax cr (t0 + ev_time ev / speed_multiplier p))
         (dispatched new) (e :: rest).
Proof.
  intros Hplay Hpause Hspeed Hfuel Hlo Hhi Hsorted.
  destruct (pause_wait_resume p b tres Hplay Hpause k fuel c tr Hfuel Hlo Hhi)
    as (cr & Hwait & Hcr).
  rewrite (for_events_after_wait fuel cb t0 i e rest
             (st p c [(tres, Resume)] b tr) _ _ _ _ Hplay Hwait eq_refl).
  destruct (schedule_after_resume fuel cb t0 (resume p) cr Hplay eq_refl
              Hspeed (e :: rest) i cr b
              (tr ++ repeat (Sleep PausePoll (1 # 10)) (S k)))
    as (c' & b' & new & Hrun & Htimes).
  - apply Qle_refl.
  - apply Forall_forall. intros e' _. apply Q.le_max_l.
  - exact Hsorted.
  - eexists. exists cr. exists (repeat (Sleep PausePoll (1 # 10)) (S k) ++ new).
    split; [exact Hrun|]. split; [exact Hcr|]. split.
    + cbn [st env trace]. now rewrite app_assoc.
    + rewrite dispatched_app, dispatched_polls. exact Htimes.
Qed.

End Player.

(** *** Runs on the sample controllers *)

Import Sample.

(** Against C1: without the pause the events are executed at 0, 1, 2 and
    3 s; with it the third and the fourth are both executed at 10.5 s, the
    moment the resume is seen, and not one second apart. *)
Lemma pause_makes_events_fire_together :
  dispatch_times (play 100 1 1 true (fresh four_ticks 0 [] untouched))
  = Some [(0, 0); (1, 1); (2, 2); (3, 3)]
  /\ dispatch_times
       (play 100 1 1 true
          (fresh four_ticks 0 [(1 # 2, Pause); (21 # 2, Resume)] untouched))
     = Some [(0, 0); (1, 1); (21 # 2, 2); (21 # 2, 3)].
Proof. split; vm_compute; reflexivity. Qed.

(** Against C3: with a speed of -1 the event of the log is executed, at
    once. *)
Lemma negative_speed_is_played :
  dispatch_times (play 0 (- (1)) 1 true (fresh [tick 1] 0 [] untouched))
  = Some [(0, 1)].
Proof. vm_compute. reflexivity. Qed.

(** Against C4: [stop] is called at 1 s, during the delay of 10 s before
    the only event; the delay is one sleep of 10 s and the event is
    executed at 10 s, nine seconds after the stop. *)
Lemma stop_ignored_during_delay :
  sleeps_of (play 0 1 1 true (fresh [tick 10] 0 [(1, Stop)] untouched))
  = Some [(PreEvent, 10)]
  /\ dispatch_times (play 0 1 1 true (fresh [tick 10] 0 [(1, Stop)] untouched))
     = Some [(10, 10)].
Proof. split; vm_compute; reflexivity. Qed.

(** Against C6: on an empty log with three loops, [play] sleeps twice
    100 ms before it returns. *)
Lemma empty_log_three_loops_sleeps :
  sleeps_of (play 0 1 3 true (fresh [] 0 [] untouched))
  = Some [(Settle, 1 # 10); (Settle, 1 # 10)].
Proof. vm_compute. reflexivity. Qed.

(** The pause theorem on the run above, from the third event on: the loop
    is paused at 1 s, the resume comes at 10.5 s and is seen 95 polls
    later. *)
Lemma pause_does_not_shift_schedule_witness :
  exists s' cr new,
    for_events 95 true 0 2 (tick 2 :: [tick 3])
      (st (set_paused true (armed (init four_ticks) 1 1)) 1
          [(21 # 2, Resume)] untouched [])
    = Done tt s'
    /\ cr == after_polls 1 95
    /\ trace (env s') = [] ++ new
    /\ Forall2
         (fun d ev => snd d = ev /\ fst d == Qmax cr (0 + ev_time ev / 1))
         (dispatched new) (tick 2 :: [tick 3]).
Proof.
  apply (pause_does_not_shift_schedule 95 true 0 2 (tick 2) [tick 3]
           (set_paused true (armed (init four_ticks) 1 1)) 1 untouched []
           (21 # 2) 94).
  - reflexivity.
  - reflexivity.
  - reflexivity.
  - lia.
  - vm_compute. reflexivity.
  - vm_compute. discriminate.
  - repeat constructor; vm_compute; discriminate.
Defined.

(** The stop theorem on a log of two events, [stop] called at 1 s. *)
Lemma stop_waits_for_event_boundary_witness :
  exists s' new,
    for_events 0 true 0 0 (tick 10 :: [tick 11])
      (st (armed (init [tick 10; tick 11]) 1 1) 0 [(1, Stop)] untouched [])
    = Done tt s'
    /\ trace (env s') = [] ++ new
    /\ sleeps new = [(PreEvent, 10 / 1 - (0 - 0))]
    /\ dispatched new = [(0 + (10 / 1 - (0 - 0)), tick 10)]
    /\ 1 <= 0 + (10 / 1 - (0 - 0))
    /\ playing (self s') = false.
Proof.
  apply (stop_waits_for_event_boundary 0 true 0 0 (tick 10) [tick 11]
           (armed (init [tick 10; tick 11]) 1 1) 0 untouched [] 1).
  - reflexivity.
  - reflexivity.
  - vm_compute. discriminate.
  - vm_compute. reflexivity.
  - vm_compute. discriminate.
Defined.

(** The theorem on the empty log, three loops. *)
Lemma play_empty_log_only_settles_witness :
  exists s' k,
    play 0 1 3 true (fresh [] 0 [] untouched) = Done tt s'
    /\ trace (env s') = [] ++ repeat (Sleep Settle (1 # 10)) k
    /\ dispatched (trace (env s')) = []
    /\ callbacks (trace (env s')) = []
    /\ backend (env s') = untouched
    /\ (k <= Z.to_nat (3 - 1))%nat
    /\ (@nil (Q * command) = [] -> k = Z.to_nat (3 - 1)).
Proof.
  apply (play_empty_log_only_settles 0 1 3 true (fresh [] 0 [] untouched)).
  reflexivity.
Defined.


Lemma dispatch_failure_contained_witness :
  exists s',
    play 0 1 1 true (fresh bad_key_log 0 [] untouched) = Done tt s'
    /\ map snd (dispatched (trace (env s')))
       = List.concat (repeat bad_key_log (Z.to_nat 1))
    /\ (forall x, ~ In (PrintPlaybackError x) (trace (env s'))).
Proof.
  apply (proj2 dispatch_failure_contained 0%nat 1 1%Z true bad_key_log 0 untouched).
  - discriminate.
  - lia.
  - vm_compute. discriminate.
Defined.

(** The theorem on the arguments [play] does not check: no loop, and a
    speed of zero. *)
Lemma unvalidated_speed_and_loops_witness :
  (exists s',
     play 0 1 0 true (fresh four_ticks 0 [] untouched) = Done tt s'
     /\ trace (env s') = []
     /\ clock (env s') = 0
     /\ backend (env s') = untouched
     /\ speed_multiplier (self s') = 1
     /\ loop_count (self s') = 0%Z)
  /\ (exists s',
        play 0 0 1 true (fresh four_ticks 0 [] untouched) = Done tt s'
        /\ trace (env s') = [PrintPlaybackError ZeroDivisionError]
        /\ speed_multiplier (self s') = 0
        /\ loop_count (self s') = 1%Z).
Proof.
  destruct unvalidated_speed_and_loops as (H1 & _ & H3 & _). split.
  - apply (H1 0%nat 1 0%Z true (fresh four_ticks 0 [] untouched)). lia.
  - apply (H3 0%nat 0 1%Z true four_ticks 0 untouched).
    + reflexivity.
    + discriminate.
    + lia.
Defined.

End PlayerSpec.

(** ** More on the capture engine *)

Module RecorderExtra.
Import EnhancedRecorder Capture RecorderStats RecorderSpec.
Local Open Scope list_scope.

Lemma subseq_refl {A} (l : list A) : subseq l l.
Proof. induction l; constructor; assumption. Qed.

Lemma subseq_app {A} (a b c d : list A) :
  subseq a b -> subseq c d -> subseq (a ++ c) (b ++ d).
Proof. induction 1; intros Hcd; simpl; try constructor; auto. Qed.

Lemma subseq_Forall {A} (P : A -> Prop) (l1 l2 : list A) :
  subseq l1 l2 -> Forall P l2 -> Forall P l1.
Proof.
  induction 1; intros Hall; [constructor| |];
    inversion Hall; subst; [constructor|]; auto.
Qed.

Lemma subseq_sorted {A} (R : A -> A -> Prop) (l1 l2 : list A) :
  subseq l1 l2 -> StronglySorted R l2 -> StronglySorted R l1.
Proof.
  induction 1; intros Hs; [constructor| |]; inversion Hs; subst.
  - constructor; [auto|]. eapply subseq_Forall; eassumption.
  - auto.
Qed.

Lemma count_three (a b c : string) (l : list event) :
  a <> b -> a <> c -> b <> c ->
  (count_type a l + count_type b l + count_type c l <= List.length l)%nat.
Proof.
  intros Hab Hac Hbc. unfold count_type.
  induction l as [|e l IH]; simpl; [lia|].
  destruct (String.eqb_spec (ev_type e) a), (String.eqb_spec (ev_type e) b),
    (String.eqb_spec (ev_type e) c); simpl; try congruence; lia.
Qed.

Lemma last_time_snoc (l : list event) (e : event) :
  last_time (l ++ [e]) = ev_time e.
Proof. unfold last_time. now rewrite rev_app_distr. Qed.

Lemma count_type_app ty (a b : list event) :
  count_type ty (a ++ b) = (count_type ty a + count_type ty b)%nat.
Proof. unfold count_type. now rewrite filter_app, length_app. Qed.

(** X1. [get_stats] gives no statistics exactly on an empty log; on any
    other log the total is the length of the log, the duration is the time
    stamp of the last event, and clicks, moves and key presses together
    never exceed the total (scrolls and key releases are counted in the
    total only). *)
Theorem get_stats_counts (r : recorder) :
  (get_stats r = None <-> events r = [])
  /\ (forall st, get_stats r = Some st ->
        total_events st = List.length (events r)
        /\ (mouse_clicks st + mouse_moves st + key_presses st
            <= total_events st)%nat
        /\ (forall l e, events r = l ++ [e] -> duration st = ev_time e)).
Proof.
  unfold get_stats. split.
  - destruct (events r); split; congruence.
  - intros st H. destruct (events r) as [|e0 l0] eqn:E; [discriminate|].
    injection H as <-. cbn [total_events mouse_clicks mouse_moves key_presses
                             duration].
    split; [reflexivity|]. split.
    + apply count_three; discriminate.
    + intros l e ->. apply last_time_snoc.
Qed.

Section Recorder.
Variable str_key : SafeKeyParser.pykey -> string.
Variable pybutton : Type.
Variable str_button : pybutton -> string.

(** One notification, on a recorder that has been started: the handler
    returns, and the log is as before or longer by the event of the
    notification. *)
Lemma handle_appends now (n : notification pybutton) r t0 :
  start_time r = Some t0 ->
  exists r',
    handle str_key str_button now n r = Ok r'
    /\ start_time r' = Some t0
    /\ record_mouse_moves r' = record_mouse_moves r
    /\ (events r' = events r
        \/ events r' = events r ++ [event_of str_key str_button t0 (now, n)]).
Proof.
  intros Ht.
  assert (Hrec : forall ty d,
             exists r', _record_event now ty d r = Ok r'
                        /\ start_time r' = Some t0
                        /\ record_mouse_moves r' = record_mouse_moves r
                        /\ (events r' = events r
                            \/ events r' = events r ++ [mkEvent ty d (now - t0)])).
  { intros ty d. unfold _record_event. rewrite Ht.
    destruct (recording r); simpl; eexists; (split; [reflexivity|]); auto. }
  destruct n as [x y b p|x y|x y dx dy|k|k]; simpl.
  - unfold _on_click. apply Hrec.
  - unfold _on_move. destruct (record_mouse_moves r) eqn:Hm; simpl.
    + destruct (last_mouse_pos r) as [lx ly].
      destruct (_ || _).
      * destruct (Hrec "mouse_move" [("x", VInt x); ("y", VInt y)])
          as (r1 & -> & H1 & H2 & H3). simpl.
        eexists. split; [reflexivity|]. simpl. auto.
      * exists r. auto.
    + exists r. auto.
  - unfold _on_scroll. apply Hrec.
  - unfold _on_press.
    destruct (Hrec "key_press"
                [("key", VStr (SafeKeyParser.key_to_string str_key k))])
      as (r1 & -> & H1 & H2 & H3). simpl.
    destruct (is_f9 k); eexists; (split; [reflexivity|]); simpl; auto.
  - unfold _on_release. apply Hrec.
Qed.

Lemma handle_all_appends t0 (ns : list (Q * notification pybutton)) :
  forall r,
  start_time r = Some t0 ->
  exists r' added,
    handle_all str_key str_button ns r = Ok r'
    /\ start_time r' = Some t0
    /\ events r' = events r ++ added
    /\ subseq added (map (event_of str_key str_button t0) ns).
Proof.
  induction ns as [|[now n] ns IH]; intros r Ht; simpl.
  - exists r, []. rewrite app_nil_r. repeat split; try assumption. constructor.
  - destruct (handle_appends now n r t0 Ht) as (r1 & -> & Ht1 & _ & Hev).
    simpl. destruct (IH r1 Ht1) as (r' & added & Hrun & Ht' & Hev' & Hsub).
    destruct Hev as [Hev|Hev].
    + exists r', added. rewrite Hev in Hev'. repeat split; try assumption.
      now constructor.
    + exists r', (event_of str_key str_button t0 (now, n) :: added).
      rewrite Hev, <- app_assoc in Hev'. repeat split; try assumption.
      now constructor.
Qed.

(** X2. Whatever notifications the listeners deliver in a capture
    session, no handler raises, and the log is made of the events of these
    notifications, in the order of delivery: some are left out (moves under
    the threshold, everything after a stop), none is added, moved or
    repeated. *)
Theorem session_log_in_delivery_order (r0 : recorder) (t0 : Q)
    (ns : list (Q * notification pybutton)) :
  exists r',
    handle_all str_key str_button ns (start t0 r0) = Ok r'
    /\ subseq (events r') (map (event_of str_key str_button t0) ns).
Proof.
  destruct (handle_all_appends t0 ns (start t0 r0) eq_refl)
    as (r' & added & Hrun & _ & Hev & Hsub).
  exists r'. split; [exact Hrun|]. simpl in Hev. now rewrite Hev.
Qed.

Lemma session_sorted_times (r0 : recorder) (t0 : Q)
    (ns : list (Q * notification pybutton)) :
  StronglySorted (fun a b => fst a <= fst b)%Q ns ->
  Forall (fun tn => t0 <= fst tn)%Q ns ->
  exists r',
    handle_all str_key str_button ns (start t0 r0) = Ok r'
    /\ StronglySorted (fun a b => ev_time a <= ev_time b)%Q (events r')
    /\ Forall (fun e => 0 <= ev_time e)%Q (events r').
Proof.
  intros Hsorted Hafter.
  destruct (handle_all_appends t0 ns (start t0 r0) eq_refl)
    as (r' & added & Hrun & _ & Hev & Hsub).
  exists r'. split; [exact Hrun|]. simpl in Hev. rewrite Hev.
  assert (Htime : forall tn, ev_time (event_of str_key str_button t0 tn)
                             = (fst tn - t0)%Q).
  { intros [now n]. destruct n; reflexivity. }
  split.
  - eapply subseq_sorted; [exact Hsub|].
    clear - Hsorted Htime.
    induction Hsorted as [|tn l Hl IH Hall]; simpl; [constructor|].
    constructor; [exact IH|].
    rewrite Forall_map. eapply Forall_impl; [|exact Hall].
    intros tn' Hle. simpl in Hle. rewrite !Htime. lra.
  - eapply subseq_Forall; [exact Hsub|].
    rewrite Forall_map. eapply Forall_impl; [|exact Hafter].
    intros tn Hle. simpl in Hle. rewrite Htime. lra.
Qed.

(** X3. When the clock readings of the notifications of a session do not
    decrease and are not before the start of the session, the time stamps
    of the log do not decrease and none is negative. *)
Theorem session_timestamps_ordered (r0 : recorder) (t0 : Q)
    (ns : list (Q * notification pybutton)) :
  StronglySorted (fun a b => fst a <= fst b)%Q ns ->
  Forall (fun tn => t0 <= fst tn)%Q ns ->
  exists r',
    handle_all str_key str_button ns (start t0 r0) = Ok r'
    /\ StronglySorted (fun a b => ev_time a <= ev_time b)%Q (events r')
    /\ Forall (fun e => 0 <= ev_time e)%Q (events r').
Proof. apply session_sorted_times. Qed.

(** X4. With the recording of moves switched off, move notifications
    change nothing at all: the recorder ends as it would without them. *)
Theorem moves_discarded_when_disabled (ns : list (Q * notification pybutton)) :
  forall r,
  record_mouse_moves r = false ->
  handle_all str_key str_button ns r
  = handle_all str_key str_button
      (filter (fun tn => negb (is_move (snd tn))) ns) r.
Proof.
  induction ns as [|[now n] ns IH]; intros r Hm; [reflexivity|].
  cbn [filter snd]. destruct n as [x y b p|x y|x y dx dy|k|k];
    cbn [is_move negb handle_all handle].
  - unfold _on_click, _record_event.
    destruct (recording r); simpl; [|apply IH; exact Hm].
    destruct (start_time r); simpl; [apply IH; exact Hm|reflexivity].
  - unfold _on_move. rewrite Hm. simpl. apply IH; exact Hm.
  - unfold _on_scroll, _record_event.
    destruct (recording r); simpl; [|apply IH; exact Hm].
    destruct (start_time r); simpl; [apply IH; exact Hm|reflexivity].
  - unfold _on_press, _record_event.
    destruct (recording r); simpl.
    + destruct (start_time r); simpl; [|reflexivity].
      destruct (is_f9 k); apply IH; exact Hm.
    + destruct (is_f9 k); apply IH; exact Hm.
  - unfold _on_release, _record_event.
    destruct (recording r); simpl; [|apply IH; exact Hm].
    destruct (start_time r); simpl; [apply IH; exact Hm|reflexivity].
Qed.

(** X5. The statistics of a session ended by the stop key: the press of
    F9 is counted, as an event and as a key press, and the duration is the
    offset of that press from the start of the session. *)
Theorem stats_of_hotkey_session (r0 : recorder) (t0 t : Q)
    (before after : list (Q * notification pybutton)) :
  Forall (fun tn => is_f9_press (snd tn) = false) before ->
  exists r1 r2 st,
    handle_all str_key str_button before (start t0 r0) = Ok r1
    /\ handle_all str_key str_button (before ++ (t, Press F9) :: after)
         (start t0 r0) = Ok r2
    /\ get_stats r2 = Some st
    /\ total_events st = S (List.length (events r1))
    /\ key_presses st = S (count_type "key_press" (events r1))
    /\ duration st = (t - t0)%Q.
Proof.
  intros Hbefore.
  destruct (session_keeps_running str_key pybutton str_button t0 before
              (start t0 r0)) as (r1 & Hrun1 & Hr1 & Ht1);
    try reflexivity; try exact Hbefore.
  set (ev := mkEvent "key_press"
               [("key", VStr (SafeKeyParser.key_to_string str_key F9))]
               (t - t0)).
  destruct (stopped_log_frozen str_key pybutton str_button after
              (stop (set_events r1 (events r1 ++ [ev]))))
    as (r2 & Hrun2 & He2 & Hr2); [reflexivity|].
  assert (Hev : events r2 = events r1 ++ [ev]) by (rewrite He2; reflexivity).
  exists r1, r2.
  assert (Hstats : exists st, get_stats r2 = Some st
                              /\ total_events st = List.length (events r2)
                              /\ key_presses st = count_type "key_press" (events r2)
                              /\ duration st = last_time (events r2)).
  { unfold get_stats. destruct (events r2) eqn:E.
    - now destruct (events r1).
    - eexists. split; [reflexivity|]. repeat split. }
  destruct Hstats as (st & Hst & Htot & Hkey & Hdur).
  exists st. split; [exact Hrun1|]. split; [|split; [exact Hst|]].
  - rewrite (handle_all_app str_key pybutton str_button), Hrun1. simpl.
    unfold _on_press.
    rewrite (record_event_on _ _ _ _ _ Hr1 Ht1). simpl. exact Hrun2.
  - rewrite Htot, Hkey, Hdur, Hev. rewrite length_app, count_type_app.
    rewrite last_time_snoc. subst ev. split; [simpl; lia|].
    split; [|reflexivity].
    change (count_type "key_press"
              [mkEvent "key_press"
                 [("key", VStr (SafeKeyParser.key_to_string str_key F9))]
                 (t - t0)]) with 1%nat.
    lia.
Qed.

End Recorder.

Lemma get_stats_counts_witness :
  (get_stats (set_events init [Sample.tick 1; Sample.key_press "'a'" 2]) = None
   <-> events (set_events init [Sample.tick 1; Sample.key_press "'a'" 2]) = [])
  /\ (forall st,
        get_stats (set_events init [Sample.tick 1; Sample.key_press "'a'" 2])
        = Some st ->
        total_events st
        = List.length
            (events (set_events init
                       [Sample.tick 1; Sample.key_press "'a'" 2]))
        /\ (mouse_clicks st + mouse_moves st + key_presses st
            <= total_events st)%nat
        /\ (forall l e,
              events (set_events init
                        [Sample.tick 1; Sample.key_press "'a'" 2])
              = l ++ [e] ->
              duration st = ev_time e)).
Proof.
  apply (get_stats_counts
           (set_events init [Sample.tick 1; Sample.key_press "'a'" 2])).
Defined.

Lemma session_timestamps_ordered_witness :
  exists r',
    handle_all Sample.str_key Sample.str_button
      [(1, Click 10 20 "left" true); (2, Press F9); (3, Release F9)]
      (start 0 init) = Ok r'
    /\ StronglySorted (fun a b => ev_time a <= ev_time b)%Q (events r')
    /\ Forall (fun e => 0 <= ev_time e)%Q (events r').
Proof.
  apply (session_timestamps_ordered Sample.str_key string Sample.str_button
           init 0 [(1, Click 10 20 "left" true); (2, Press F9);
                   (3, Release F9)]).
  - repeat constructor; vm_compute; discriminate.
  - repeat constructor; vm_compute; discriminate.
Defined.

Lemma moves_discarded_when_disabled_witness :
  handle_all Sample.str_key Sample.str_button
    [(1, Move 100 100); (2, Press F9)] (set_moves_off init)
  = handle_all Sample.str_key Sample.str_button
      (filter (fun tn => negb (is_move (snd tn)))
         [(1, Move 100 100); (2, @Press string F9)]) (set_moves_off init).
Proof.
  apply (moves_discarded_when_disabled Sample.str_key string Sample.str_button
           [(1, Move 100 100); (2, Press F9)] (set_moves_off init)).
  reflexivity.
Defined.

Lemma stats_of_hotkey_session_witness :
  exists r1 r2 st,
    handle_all Sample.str_key Sample.str_button
      [(1, Click 10 20 "left" true)] (start 0 init) = Ok r1
    /\ handle_all Sample.str_key Sample.str_button
         ([(1, Click 10 20 "left" true)]
          ++ (2, Press F9) :: [(3, Release F9)]) (start 0 init) = Ok r2
    /\ get_stats r2 = Some st
    /\ total_events st = S (List.length (events r1))
    /\ key_presses st = S (count_type "key_press" (events r1))
    /\ duration st = (2 - 0)%Q.
Proof.
  apply (stats_of_hotkey_session Sample.str_key string Sample.str_button
           init 0 2 [(1, Click 10 20 "left" true)] [(3, Release F9)]).
  repeat constructor.
Defined.

End RecorderExtra.

(** ** From a recorded key or event to its replay *)

Module RecordReplayExtra.
Import SafeKeyParser EnhancedRecorder Capture RecorderStats.
Import KeyParserSpec RecorderExtra.
Local Open Scope list_scope.

Section Replay.
Context {PL : Pynput}.
Variable str_key : pykey -> string.
Variable pybutton : Type.
Variable str_button : pybutton -> string.

Lemma parse_key_returns (key_str : string) :
  exists v, parse_key key_str = Ok v.
Proof.
  unfold parse_key.
  destruct (PyStr.startswith "Key." key_str) eqn:Hk.
  - destruct (startswith_Key_inv _ Hk) as (rest & ->).
    rewrite key_name_Key. simpl. now eexists.
  - destruct (PyStr.startswith "'" key_str && PyStr.endswith "'" key_str
              && (PyStr.len key_str =? 3)%nat) eqn:Hq.
    + apply andb_true_iff in Hq. destruct Hq as [_ Hlen].
      apply Nat.eqb_eq in Hlen.
      destruct (char_at_len3 _ Hlen) as (c & ->). simpl. now eexists.
    + destruct (KeyCode_from_char key_str); now eexists.
Qed.

Lemma startswith_quote (x : string) :
  PyStr.startswith "'" ("'" ++ x)%string = true.
Proof. apply String.prefix_correct. now destruct x. Qed.

Lemma length_append_quote (x : string) :
  String.length (x ++ "'")%string = S (String.length x).
Proof. induction x as [|a x IH]; simpl; [reflexivity|now rewrite IH]. Qed.

Lemma substring_last_quote (x : string) :
  String.substring (String.length x) 1 (x ++ "'")%string = "'".
Proof. induction x as [|a x IH]; simpl; [reflexivity|exact IH]. Qed.

Lemma endswith_quote (x : string) : PyStr.endswith "'" (x ++ "'")%string = true.
Proof.
  unfold PyStr.endswith. rewrite length_append_quote.
  change (String.length "'") with 1%nat.
  change (1 <=? S (String.length x))%nat with true. cbv iota.
  replace (S (String.length x) - 1)%nat with (String.length x) by lia.
  rewrite substring_last_quote. reflexivity.
Qed.

Lemma chars_cons (a b : ascii) (r : string) :
  PyStr.chars (String a (String b r))
  = if PyStr.is_continuation b then
      match PyStr.chars (String b r) with
      | c :: cs => String a c :: cs
      | [] => [String a EmptyString]
      end
    else String a EmptyString :: PyStr.chars (String b r).
Proof. reflexivity. Qed.

(** The characters of a character followed by a quote. *)
Lemma chars_char_quote (r : string) (a : ascii) :
  forallb PyStr.is_continuation (list_ascii_of_string r) = true ->
  PyStr.chars (String a (r ++ "'")%string) = [String a r; "'"].
Proof.
  revert a. induction r as [|b r IH]; intros a Hr.
  - reflexivity.
  - simpl in Hr. apply andb_true_iff in Hr. destruct Hr as [Hb Hr].
    change (String a (String b r ++ "'")%string)
      with (String a (String b (r ++ "'")%string)).
    rewrite chars_cons, Hb, (IH b Hr). reflexivity.
Qed.

(** A character in quotes is three characters, the second of them the
    character. *)
Lemma chars_quoted (c : string) :
  PyStr.is_char c = true ->
  PyStr.chars ("'" ++ c ++ "'")%string = ["'"; c; "'"].
Proof.
  destruct c as [|a r]; [discriminate|]. simpl PyStr.is_char. intros H.
  apply andb_true_iff in H. destruct H as [Ha Hr].
  apply negb_true_iff in Ha.
  change ("'" ++ String a r ++ "'")%string
    with (String "'" (String a (r ++ "'")%string)).
  rewrite chars_cons, Ha, (chars_char_quote r a Hr). reflexivity.
Qed.

(** X6. Writing a key as a symbol and reading the symbol back. A key whose
    [char] is one character, of any script, is written in quotes and read
    back as that character. A member of [Key], which [str] writes as
    [Key.<name>], is read back as the attribute [name] of [Key]. *)
Theorem key_symbol_round_trip :
  (forall vk c,
     PyStr.is_char c = true ->
     parse_key (key_to_string str_key (KeyCode vk (Some c))) = Ok (PStr c))
  /\ (forall name a,
        str_key (SpecialKey name) = ("Key." ++ name)%string ->
        PyStr.contains "." name = false ->
        Key_getattr name = Some a ->
        parse_key (key_to_string str_key (SpecialKey name)) = Ok (PAttr a)).
Proof.
  split.
  - intros vk c Hc.
    assert (Hne : (String.length c =? 0)%nat = false)
      by (destruct c; [discriminate|reflexivity]).
    unfold key_to_string, has_char. rewrite Hne. cbn [negb].
    unfold parse_key.
    change (PyStr.startswith "Key." ("'" ++ c ++ "'")%string) with false.
    rewrite (startswith_quote (c ++ "'")).
    change (PyStr.endswith "'" ("'" ++ c ++ "'")%string)
      with (PyStr.endswith "'" (("'" ++ c) ++ "'")%string).
    rewrite endswith_quote.
    unfold PyStr.len, PyStr.char_at. rewrite (chars_quoted c Hc).
    reflexivity.
  - intros name a Hstr Hdot Ha.
    unfold key_to_string. simpl. rewrite Hstr.
    unfold parse_key.
    rewrite startswith_Key_append, key_name_Key.
    rewrite (split_no_separator _ _ Hdot). simpl.
    unfold getattr_Key. now rewrite Ha.
Qed.

(** The button of a click, resolved as [_execute_event] does. *)
Lemma event_of_dispatchable t0 (tn : Q * notification pybutton) :
  (forall b, exists bt,
     res_bind (PyStr.index_last (PyStr.split "." (str_button b)))
       EnhancedPlayer.getattr_Button = Ok bt) ->
  exists i,
    EnhancedPlayer.event_injection (event_of str_key str_button t0 tn)
    = Ok (Some i).
Proof.
  intros Hb. destruct tn as [now [x y b p|x y|x y dx dy|k|k]];
    unfold event_of, EnhancedPlayer.event_injection; simpl.
  - destruct (Hb b) as (bt & Hbt). unfold res_bind in Hbt.
    destruct (PyStr.index_last (PyStr.split "." (str_button b))) as [seg|];
      [|discriminate].
    simpl. rewrite Hbt. simpl. now eexists.
  - now eexists.
  - now eexists.
  - destruct (parse_key_returns (key_to_string str_key k)) as (v & ->).
    simpl. now eexists.
  - destruct (parse_key_returns (key_to_string str_key k)) as (v & ->).
    simpl. now eexists.
Qed.

(** X7. A log recorded in a capture session can be replayed without a
    lookup failing: provided [mouse.Button] has the button of every click
    under the last segment of its name, [_execute_event] finds in each
    recorded event the fields it reads and arrives at a call on a
    controller. *)
Theorem recorded_log_dispatchable (r0 : recorder) (t0 : Q)
    (ns : list (Q * notification pybutton)) :
  (forall b, exists bt,
     res_bind (PyStr.index_last (PyStr.split "." (str_button b)))
       EnhancedPlayer.getattr_Button = Ok bt) ->
  exists r',
    handle_all str_key str_button ns (start t0 r0) = Ok r'
    /\ Forall (fun e => exists i, EnhancedPlayer.event_injection e = Ok (Some i))
         (events r').
Proof.
  intros Hb.
  destruct (handle_all_appends str_key pybutton str_button t0 ns (start t0 r0)
              eq_refl) as (r' & added & Hrun & _ & Hev & Hsub).
  exists r'. split; [exact Hrun|]. simpl in Hev. rewrite Hev.
  eapply subseq_Forall; [exact Hsub|].
  rewrite Forall_map. apply Forall_forall. intros tn _.
  now apply event_of_dispatchable.
Qed.

End Replay.

Import Sample SampleButtons.

(** The theorem at the key [a], at the key whose character is the two
    bytes 195 169 (e with an acute accent), and at [Key.f9]. *)
Lemma key_symbol_round_trip_witness :
  parse_key (key_to_string str_key (KeyCode None (Some "a"))) = Ok (PStr "a")
  /\ parse_key
       (key_to_string str_key
          (KeyCode None (Some (String "195" (String "169" EmptyString)))))
     = Ok (PStr (String "195" (String "169" EmptyString)))
  /\ parse_key (key_to_string str_key (SpecialKey "f9")) = Ok (PAttr "f9").
Proof.
  destruct (@key_symbol_round_trip pynput str_key) as (H1 & H2).
  split; [|split].
  - apply H1. reflexivity.
  - apply H1. reflexivity.
  - apply H2; reflexivity.
Defined.

Lemma recorded_log_dispatchable_witness :
  exists r',
    handle_all str_key str_button3
      [(1, Click 10 20 BLeft true); (2, Move 30 40); (3, Press (KeyCode None (Some "a")))]
      (start 0 init) = Ok r'
    /\ Forall (fun e => exists i, EnhancedPlayer.event_injection e = Ok (Some i))
         (events r').
Proof.
  apply (recorded_log_dispatchable str_key button3 str_button3 init 0
           [(1, Click 10 20 BLeft true); (2, Move 30 40);
            (3, Press (KeyCode None (Some "a")))]).
  intros [| |]; now eexists.
Defined.

End RecordReplayExtra.

(** ** More on the playback engine *)

Module PlayerExtra.
Import EnhancedPlayer Playback PlaybackInvariants PlayerSpec.
Local Open Scope list_scope.
Local Open Scope Q_scope.

Section Player.
Context {PL : Pynput} {CL : Controllers}.

Local Arguments Qplus : simpl never.
Local Arguments Qminus : simpl never.
Local Arguments Qdiv : simpl never.
Local Arguments Qle_bool : simpl never.
Local Arguments Qeq_bool : simpl never.
Local Arguments Qltb : simpl never.
Local Arguments pymax0 : simpl never.
Local Arguments progress : simpl never.
Local Arguments pause_wait : simpl never.
Local Arguments _execute_event : simpl never.
Local Arguments sleep : simpl never.

Lemma same_config_refl p : same_config p p.
Proof. repeat split. Qed.

Lemma same_config_trans p1 p2 p3 :
  same_config p1 p2 -> same_config p2 p3 -> same_config p1 p3.
Proof.
  intros (A1 & A2 & A3 & A4) (B1 & B2 & B3 & B4).
  repeat split; congruence.
Qed.

Lemma deliver_same_config now cmds p :
  same_config p (fst (deliver now cmds p)).
Proof. exact (deliver_fields now cmds p). Qed.

Lemma deliver_stays_stopped now : forall cmds p,
  playing p = false -> playing (fst (deliver now cmds p)) = false.
Proof.
  induction cmds as [|[t cmd] rest IH]; intros p Hp; simpl; [exact Hp|].
  destruct (Qle_bool t now).
  - apply IH. now destruct cmd.
  - destruct (deliver now rest p) as [p' rest'] eqn:E. simpl.
    specialize (IH p Hp). now rewrite E in IH.
Qed.

(** The wait of a paused player: only polls. *)
Lemma pause_wait_invariant : forall fuel s,
  match pause_wait fuel s with
  | Done _ s1 =>
      same_config (self s) (self s1)
      /\ exists polls,
           trace (env s1) = trace (env s) ++ polls
           /\ dispatched polls = []
           /\ (forall x, ~ In (PrintPlaybackError x) polls)
  | Raised _ _ => False
  | OutOfFuel => True
  end.
Proof.
  induction fuel as [|fuel IH]; intros [p [c cmds b tr]];
    unfold pause_wait; fold pause_wait; cbn [self].
  - destruct (paused p && playing p); [exact I|].
    split; [apply same_config_refl|]. exists []. rewrite app_nil_r.
    repeat split. intros x [].
  - destruct (paused p && playing p).
    + unfold bind. fold (st p c cmds b tr). rewrite sleep_eq.
      specialize (IH (st (fst (deliver (c + (1 # 10)) cmds p)) (c + (1 # 10))
                        (snd (deliver (c + (1 # 10)) cmds p)) b
                        (tr ++ [Sleep PausePoll (1 # 10)]))).
      destruct (pause_wait fuel _) as [[] s1|x s1|]; [|exact IH|exact I].
      destruct IH as (Hcfg & polls & Htr & Hd & He).
      split.
      * eapply same_config_trans; [apply deliver_same_config|exact Hcfg].
      * exists (Sleep PausePoll (1 # 10) :: polls).
        cbn [st env trace] in Htr |- *. rewrite Htr, <- app_assoc.
        repeat split; [exact Hd|].
        intros x [H|H]; [discriminate|]. now apply He in H.
    + split; [apply same_config_refl|]. exists []. rewrite app_nil_r.
      repeat split. intros x [].
Qed.

(** One more event at the front of a pass. *)
Lemma pass_outcome_step t0 e rest s s4 pre post T o :
  same_config (self s) (self s4) ->
  trace (env s4) = trace (env s) ++ pre ++ Exec T e :: post ->
  dispatched pre = [] -> dispatched post = [] ->
  (forall x, ~ In (PrintPlaybackError x) pre) ->
  (forall x, ~ In (PrintPlaybackError x) post) ->
  t0 + ev_time e / speed_multiplier (self s) <= T ->
  pass_outcome t0 rest s4 o ->
  pass_outcome t0 (e :: rest) s o.
Proof.
  intros Hcfg Htr Hpre Hpost Hepre Hepost Htime Ho.
  assert (Hstep : forall returned s',
             pass_post returned t0 rest s4 s' ->
             pass_post returned t0 (e :: rest) s s').
  { intros returned s' (Hcfg' & new & rest' & Htr' & Hevs & Hon & Herr & Hend).
    split; [eapply same_config_trans; eassumption|].
    exists (pre ++ Exec T e :: post ++ new), rest'.
    destruct Hcfg as (_ & Hsp & _).
    split; [|split; [|split; [|split]]].
    - rewrite Htr', Htr, <- !app_assoc. reflexivity.
    - rewrite dispatched_app, Hpre. simpl. rewrite dispatched_app, Hpost.
      simpl. now rewrite Hevs.
    - rewrite dispatched_app, Hpre. simpl. rewrite dispatched_app, Hpost.
      simpl. constructor; [exact Htime|]. now rewrite <- Hsp.
    - intros x Hin. apply in_app_or in Hin. destruct Hin as [Hin|Hin];
        [now apply Hepre in Hin|].
      simpl in Hin. destruct Hin as [Hin|Hin]; [discriminate|].
      apply in_app_or in Hin. destruct Hin as [Hin|Hin];
        [now apply Hepost in Hin|now apply Herr in Hin].
    - destruct returned; [exact Hend|]. now rewrite <- Hsp. }
  destruct o as [[] s'|x s'|]; simpl in *.
  - now apply Hstep.
  - destruct Ho as [Hx Hp]. split; [exact Hx|now apply Hstep].
  - exact I.
Qed.

Lemma pass_post_here (returned : bool) (t0 : Q) (evs : list event)
    (s s' : pstate) (extra : list obs) :
  same_config (self s) (self s') ->
  trace (env s') = trace (env s) ++ extra ->
  dispatched extra = [] ->
  (forall x, ~ In (PrintPlaybackError x) extra) ->
  (if returned then evs = [] \/ playing (self s') = false
   else speed_multiplier (self s) == 0) ->
  pass_post returned t0 evs s s'.
Proof.
  intros Hcfg Htr Hd He Hend. split; [exact Hcfg|].
  exists extra, evs. rewrite Hd. simpl.
  repeat split; try assumption. constructor.
Qed.

(** Whatever commands are pending, a pass executes the first events of
    the log in order, each on time. *)
Lemma for_events_invariant fuel cb t0 : forall evs i s,
  pass_outcome t0 evs s (for_events fuel cb t0 i evs s).
Proof.
  induction evs as [|e rest IH]; intros i s.
  - simpl. apply (pass_post_here true t0 [] s s []);
      [apply same_config_refl|now rewrite app_nil_r|reflexivity|
       intros x []|now left].
  - cbn [for_events].
    destruct (playing (self s)) eqn:Hplay; cbn [negb].
    2:{ simpl. apply (pass_post_here true t0 (e :: rest) s s []);
          [apply same_config_refl|now rewrite app_nil_r|reflexivity|
           intros x []|now right]. }
    unfold bind at 1.
    pose proof (pause_wait_invariant fuel s) as Hw.
    destruct (pause_wait fuel s) as [[] s1|x s1|]; [|destruct Hw|exact I].
    destruct Hw as (Hcfg1 & polls & Htr1 & Hd1 & He1).
    destruct (playing (self s1)) eqn:Hplay1; cbn [negb].
    2:{ simpl. apply (pass_post_here true t0 (e :: rest) s s1 polls);
          try assumption. now right. }
    unfold target_time.
    destruct (Qeq_bool (speed_multiplier (self s1)) 0) eqn:Hz.
    { simpl. split; [reflexivity|].
      apply (pass_post_here false t0 (e :: rest) s s1 polls); try assumption.
      destruct Hcfg1 as (_ & Hsp & _). rewrite <- Hsp.
      now apply Qeq_bool_iff. }
    cbn [lift]. unfold bind at 1. unfold ret at 1.
    unfold bind at 1. unfold now at 1.
    destruct s1 as [p1 [c1 cmds1 b1 tr1]].
    cbn [self env clock trace speed_multiplier] in *.
    set (x := ev_time e / speed_multiplier p1 - (c1 - t0)).
    assert (Hsp : speed_multiplier p1 = speed_multiplier (self s))
      by (destruct Hcfg1 as (_ & H & _); exact H).
    rewrite Qltb_0_pymax0.
    destruct (Qltb 0 x) eqn:Hx.
    + apply Qltb_true in Hx. rewrite (pymax0_pos x Hx).
      unfold bind at 1. fold (st p1 c1 cmds1 b1 tr1). rewrite sleep_eq.
      unfold bind at 1. rewrite execute_event_eq.
      set (p2 := fst (deliver (c1 + x) cmds1 p1)).
      set (cmds2 := snd (deliver (c1 + x) cmds1 p1)).
      unfold bind at 1.
      assert (Hcfg2 : same_config (self s) p2).
      { eapply same_config_trans; [exact Hcfg1|apply deliver_same_config]. }
      destruct (exec_obs_quiet e b1) as (Hod & _ & _ & Hoe).
      destruct cb.
      * unfold emit, st. cbn [self env clock pending backend trace].
        eapply (pass_outcome_step t0 e rest s _
                  (polls ++ [Sleep PreEvent x])
                  (exec_obs e b1
                   ++ [Callback (progress i (List.length (events p2)))
                         (current_loop p2 + 1) (loop_count p2)])
                  (c1 + x)); [| | | | | | |apply IH].
        -- exact Hcfg2.
        -- cbn [self env trace]. rewrite Htr1, <- !app_assoc. reflexivity.
        -- rewrite dispatched_app, Hd1. reflexivity.
        -- rewrite dispatched_app, Hod. reflexivity.
        -- intros y Hin. apply in_app_or in Hin.
           destruct Hin as [Hin|[Hin|[]]]; [now apply He1 in Hin|discriminate].
        -- intros y Hin. apply in_app_or in Hin.
           destruct Hin as [Hin|[Hin|[]]]; [now apply Hoe in Hin|discriminate].
        -- rewrite <- Hsp. unfold x. lra.
      * unfold ret, st.
        eapply (pass_outcome_step t0 e rest s _
                  (polls ++ [Sleep PreEvent x]) (exec_obs e b1) (c1 + x));
          [| | | | | | |apply IH].
        -- exact Hcfg2.
        -- cbn [self env trace]. rewrite Htr1, <- !app_assoc. reflexivity.
        -- rewrite dispatched_app, Hd1. reflexivity.
        -- exact Hod.
        -- intros y Hin. apply in_app_or in Hin.
           destruct Hin as [Hin|[Hin|[]]]; [now apply He1 in Hin|discriminate].
        -- exact Hoe.
        -- rewrite <- Hsp. unfold x. lra.
    + apply Qltb_false in Hx.
      unfold bind at 1. unfold ret at 1.
      fold (st p1 c1 cmds1 b1 tr1). unfold bind at 1.
      rewrite execute_event_eq. unfold bind at 1.
      destruct (exec_obs_quiet e b1) as (Hod & _ & _ & Hoe).
      destruct cb.
      * unfold emit, st. cbn [self env clock pending backend trace].
        eapply (pass_outcome_step t0 e rest s _ polls
                  (exec_obs e b1
                   ++ [Callback (progress i (List.length (events p1)))
                         (current_loop p1 + 1) (loop_count p1)])
                  c1); [| | | | | | |apply IH].
        -- exact Hcfg1.
        -- cbn [self env trace]. rewrite Htr1, <- !app_assoc. reflexivity.
        -- exact Hd1.
        -- rewrite dispatched_app, Hod. reflexivity.
        -- exact He1.
        -- intros y Hin. apply in_app_or in Hin.
           destruct Hin as [Hin|[Hin|[]]]; [now apply Hoe in Hin|discriminate].
        -- rewrite <- Hsp. unfold x in Hx. lra.
      * unfold ret, st.
        eapply (pass_outcome_step t0 e rest s _ polls (exec_obs e b1) c1);
          [| | | | | | |apply IH].
        -- exact Hcfg1.
        -- cbn [self env trace]. rewrite Htr1, <- !app_assoc. reflexivity.
        -- exact Hd1.
        -- exact Hod.
        -- exact He1.
        -- exact Hoe.
        -- rewrite <- Hsp. unfold x in Hx. lra.
Qed.

Lemma play_sequence_invariant fuel cb s :
  pass_outcome (clock (env s)) (events (self s)) s (_play_sequence fuel cb s).
Proof.
  unfold _play_sequence. destruct (events (self s)) as [|e l] eqn:E.
  - simpl. apply (pass_post_here true _ [] s s []);
      [apply same_config_refl|now rewrite app_nil_r|reflexivity|
       intros x []|now left].
  - unfold bind, now. apply for_events_invariant.
Qed.

Lemma play_loop_stopped fuel cb n s :
  playing (self s) = false -> play_loop fuel cb n s = Done tt s.
Proof.
  intros H. destruct n; cbn [play_loop]; now rewrite H, andb_false_r.
Qed.

Lemma loop_post_here n s s' extra :
  events (self s') = events (self s) ->
  speed_multiplier (self s') = speed_multiplier (self s) ->
  trace (env s') = trace (env s) ++ extra ->
  dispatched extra = [] ->
  (forall x, ~ In (PrintPlaybackError x) extra) ->
  loop_post n s s'.
Proof.
  intros He Hs Htr Hd Herr. split; [exact He|]. split; [exact Hs|].
  exists extra, (List.concat (repeat (events (self s)) n)).
  rewrite Hd. repeat split; assumption.
Qed.

(** What the [while] loop of [play] keeps, whatever commands arrive. *)
Lemma play_loop_invariant fuel cb : forall n s,
  loop_outcome n s (play_loop fuel cb n s).
Proof.
  induction n as [|n IH]; intros s; cbn [play_loop];
    destruct ((current_loop (self s) <? loop_count (self s))%Z
              && playing (self s)) eqn:Hcond;
    try exact I;
    try (simpl; apply (loop_post_here _ s s []);
         [reflexivity|reflexivity|now rewrite app_nil_r|reflexivity|
          intros x []]).
  unfold bind at 1.
  pose proof (play_sequence_invariant fuel cb s) as Hpass.
  destruct (_play_sequence fuel cb s) as [[] s1|x s1|]; [| |exact I].
  - destruct Hpass as ((He1 & Hs1 & _) & new & rest & Htr1 & Hevs & _ & Herr1
                       & Hend).
    (* what is left of the round, up to the next test of the loop *)
    assert (Hnext : forall s3 extra,
               events (self s3) = events (self s1) ->
               speed_multiplier (self s3) = speed_multiplier (self s1) ->
               trace (env s3) = trace (env s1) ++ extra ->
               dispatched extra = [] ->
               (forall x, ~ In (PrintPlaybackError x) extra) ->
               (playing (self s1) = false -> playing (self s3) = false) ->
               loop_outcome (S n) s (play_loop fuel cb n s3)).
    { intros s3 extra He3 Hs3 Htr3 Hd3 Herr3 Hstop.
      assert (Hglue : forall s',
                 loop_post n s3 s' -> rest = [] -> loop_post (S n) s s').
      { intros s' (He' & Hs' & new' & rest' & Htr' & Hcat & Herr') ->.
        split; [congruence|]. split; [congruence|].
        exists (new ++ extra ++ new'), rest'.
        split; [|split].
        - rewrite Htr', Htr3, Htr1, <- !app_assoc. reflexivity.
        - rewrite !dispatched_app, Hd3. simpl. rewrite map_app.
          cbn [repeat List.concat]. rewrite Hevs at 1.
          rewrite app_nil_r, <- app_assoc. f_equal.
          rewrite He3, He1 in Hcat. exact Hcat.
        - intros x Hin. apply in_app_or in Hin. destruct Hin as [Hin|Hin];
            [now apply Herr1 in Hin|].
          apply in_app_or in Hin. destruct Hin as [Hin|Hin];
            [now apply Herr3 in Hin|now apply Herr' in Hin]. }
      destruct Hend as [Hrest|Hstopped].
      - specialize (IH s3).
        destruct (play_loop fuel cb n s3) as [[] s'|x s'|]; simpl in IH |- *.
        + now apply Hglue.
        + destruct IH as (Hx & Hz & Hpost). split; [exact Hx|].
          split; [now rewrite <- Hs1, <- Hs3|now apply Hglue].
        + exact I.
      - rewrite play_loop_stopped by (apply Hstop; exact Hstopped). simpl.
        split; [congruence|]. split; [congruence|].
        exists (new ++ extra),
          (rest ++ List.concat (repeat (events (self s)) n)).
        split; [|split].
        + rewrite Htr3, Htr1, <- app_assoc. reflexivity.
        + rewrite dispatched_app, Hd3, app_nil_r. cbn [repeat List.concat].
          rewrite Hevs at 1. now rewrite app_assoc.
        + intros x Hin. apply in_app_or in Hin. destruct Hin as [Hin|Hin];
            [now apply Herr1 in Hin|now apply Herr3 in Hin]. }
    unfold bind at 1. unfold modify_self at 1.
    destruct s1 as [p1 [c1 cmds1 b1 tr1]].
    cbn [self env clock trace] in *.
    unfold bind at 1. cbn [self current_loop loop_count set_current_loop].
    destruct (current_loop p1 + 1 <? loop_count p1)%Z.
    + fold (st (set_current_loop (current_loop p1 + 1) p1) c1 cmds1 b1 tr1).
      rewrite sleep_eq.
      set (p2 := set_current_loop (current_loop p1 + 1) p1).
      destruct (deliver_fields (c1 + (1 # 10)) cmds1 p2) as (E1 & E2 & _).
      apply (Hnext _ [Sleep Settle (1 # 10)]).
      * cbn [st self]. rewrite E1. reflexivity.
      * cbn [st self]. rewrite E2. reflexivity.
      * reflexivity.
      * reflexivity.
      * intros x [H|[]]. discriminate.
      * intros Hp. cbn [st self]. now apply deliver_stays_stopped.
    + apply (Hnext {| self := set_current_loop (current_loop p1 + 1) p1;
                      env := {| clock := c1; pending := cmds1; backend := b1;
                                trace := tr1 |} |} []).
      * reflexivity.
      * reflexivity.
      * cbn [env trace]. now rewrite app_nil_r.
      * reflexivity.
      * intros x [].
      * intros Hp. exact Hp.
  - destruct Hpass as (Hx & (He1 & Hs1 & _) & new & rest & Htr1 & Hevs & _
                       & Herr1 & Hz).
    simpl. split; [exact Hx|]. split; [exact Hz|].
    split; [exact He1|]. split; [exact Hs1|].
    exists new, (rest ++ List.concat (repeat (events (self s)) n)).
    split; [exact Htr1|]. split; [|exact Herr1].
    cbn [repeat List.concat]. rewrite Hevs at 1. now rewrite app_assoc.
Qed.

(** X8. Whatever [stop], [pause] and [resume] calls another thread makes
    and whenever it makes them, [play] lets no exception escape, and when
    it returns the player is not [playing] and the events executed are the
    first events of the log repeated [loops] times: in log order, none
    left out before the last one executed, none executed twice in a
    loop. *)
Theorem play_executes_a_prefix (fuel : nat) (speed : Q) (loops : Z)
    (cb : bool) (s : pstate) :
  match play fuel speed loops cb s with
  | Done _ s' =>
      playing (self s') = false
      /\ exists new rest,
           trace (env s') = trace (env s) ++ new
           /\ List.concat (repeat (events (self s)) (Z.to_nat loops))
              = map snd (dispatched new) ++ rest
  | Raised _ _ => False
  | OutOfFuel => True
  end.
Proof.
  destruct s as [p [c cmds b tr]]. fold (st p c cmds b tr). rewrite play_eq.
  set (s0 := st (fst (deliver c cmds (armed p speed loops))) c
               (snd (deliver c cmds (armed p speed loops))) b tr).
  pose proof (play_loop_invariant fuel cb (Z.to_nat loops) s0) as H.
  destruct (deliver_fields c cmds (armed p speed loops)) as (E1 & _).
  destruct (play_loop fuel cb (Z.to_nat loops) s0) as [[] s1|x s1|];
    simpl in H |- *; [| |exact I].
  - destruct H as (_ & _ & new & rest & Htr & Hcat & _).
    split; [reflexivity|]. exists new, rest. split; [exact Htr|].
    unfold s0 in Hcat. cbn [st self] in Hcat. rewrite E1 in Hcat. exact Hcat.
  - destruct H as (_ & _ & _ & _ & new & rest & Htr & Hcat & _).
    split; [reflexivity|]. exists (new ++ [PrintPlaybackError x]), rest.
    split; [now rewrite Htr, <- app_assoc|].
    rewrite dispatched_app. simpl. rewrite app_nil_r.
    unfold s0 in Hcat. cbn [st self] in Hcat. rewrite E1 in Hcat. exact Hcat.
Qed.

(** X10. No event is executed early: in a pass that starts at clock
    reading [t0], with whatever commands and pauses, an event with time
    stamp [t] is executed at [t0 + t / speed] or later. *)
Theorem no_event_before_its_time (fuel : nat) (cb : bool) (s : pstate) :
  match _play_sequence fuel cb s with
  | Done _ s' | Raised _ s' =>
      exists new,
        trace (env s') = trace (env s) ++ new
        /\ Forall
             (fun d =>
                clock (env s) + ev_time (snd d) / speed_multiplier (self s)
                <= fst d)
             (dispatched new)
  | OutOfFuel => True
  end.
Proof.
  pose proof (play_sequence_invariant fuel cb s) as H.
  destruct (_play_sequence fuel cb s) as [[] s'|x s'|]; simpl in H; [| |exact I].
  - destruct H as (_ & new & rest & Htr & _ & Hon & _).
    exists new. split; [exact Htr|exact Hon].
  - destruct H as (_ & _ & new & rest & Htr & _ & Hon & _).
    exists new. split; [exact Htr|exact Hon].
Qed.

(** *** Without a pause, [play] returns *)

Lemma deliver_never_paused now : forall cmds p,
  paused p = false -> Forall (fun tc => snd tc <> Pause) cmds ->
  paused (fst (deliver now cmds p)) = false
  /\ Forall (fun tc => snd tc <> Pause) (snd (deliver now cmds p)).
Proof.
  induction cmds as [|[t cmd] rest IH]; intros p Hp Hall; simpl.
  - split; [exact Hp|constructor].
  - inversion Hall as [|? ? Hcmd Hrest]; subst. simpl in Hcmd.
    destruct (Qle_bool t now).
    + apply IH; [|exact Hrest]. destruct cmd; try reflexivity; try exact Hp.
      contradiction.
    + destruct (deliver now rest p) as [p' rest'] eqn:E. simpl.
      specialize (IH p Hp Hrest). rewrite E in IH. simpl in IH.
      destruct IH as [H1 H2]. split; [exact H1|].
      constructor; [exact Hcmd|exact H2].
Qed.

Lemma NoPause_sleep w d p c cmds b tr :
  NoPause.never_paused (st p c cmds b tr) ->
  exists s', sleep w d (st p c cmds b tr) = Done tt s'
             /\ NoPause.never_paused s'
             /\ same_config p (self s').
Proof.
  intros [Hp Hall]. rewrite sleep_eq. eexists. split; [reflexivity|].
  split; [|apply deliver_same_config].
  apply (deliver_never_paused (c + d) cmds p Hp Hall).
Qed.

Lemma for_events_returns fuel cb t0 : forall evs i s,
  NoPause.never_paused s ->
  match for_events fuel cb t0 i evs s with
  | Done _ s' => NoPause.never_paused s'
  | Raised _ s' => NoPause.never_paused s'
  | OutOfFuel => False
  end.
Proof.
  induction evs as [|e rest IH]; intros i s Hs; [exact Hs|].
  cbn [for_events]. destruct (playing (self s)) eqn:Hplay; cbn [negb];
    [|exact Hs].
  unfold bind at 1. destruct s as [p [c cmds b tr]].
  fold (st p c cmds b tr) in *.
  rewrite pause_wait_unpaused by exact (proj1 Hs).
  cbn [st self]. cbn [st self] in Hplay. rewrite Hplay. cbn [negb].
  unfold target_time. destruct (Qeq_bool (speed_multiplier p) 0);
    [exact Hs|].
  cbn [lift]. unfold bind at 1. unfold ret at 1.
  unfold bind at 1. unfold now at 1. cbn [env clock].
  destruct (Qltb 0 _).
  - unfold bind at 1. fold (st p c cmds b tr).
    match goal with
    | |- context [sleep PreEvent ?d _] =>
        destruct (NoPause_sleep PreEvent d p c cmds b tr Hs)
          as ([p2 [c2 cmds2 b2 tr2]] & -> & Hs2 & _)
    end.
    unfold bind at 1. fold (st p2 c2 cmds2 b2 tr2). rewrite execute_event_eq.
    unfold bind at 1. destruct cb; [unfold emit|unfold ret]; apply IH;
      exact Hs2.
  - unfold bind at 1. unfold ret at 1. fold (st p c cmds b tr).
    unfold bind at 1. rewrite execute_event_eq.
    unfold bind at 1. destruct cb; [unfold emit|unfold ret]; apply IH;
      exact Hs.
Qed.

Lemma play_loop_returns fuel cb : forall n s,
  NoPause.never_paused s ->
  (loop_count (self s) - current_loop (self s) <= Z.of_nat n)%Z ->
  play_loop fuel cb n s <> OutOfFuel.
Proof.
  induction n as [|n IH]; intros s Hs Hn; cbn [play_loop];
    destruct ((current_loop (self s) <? loop_count (self s))%Z
              && playing (self s)) eqn:Hcond; try discriminate.
  - apply andb_true_iff in Hcond. destruct Hcond as [Hlt _].
    apply Z.ltb_lt in Hlt. lia.
  - unfold bind at 1.
    pose proof (play_sequence_invariant fuel cb s) as Hpass.
    assert (Hret : match _play_sequence fuel cb s with
                   | Done _ s' => NoPause.never_paused s'
                   | Raised _ s' => NoPause.never_paused s'
                   | OutOfFuel => False
                   end).
    { unfold _play_sequence. destruct (events (self s)); [exact Hs|].
      unfold bind, now. now apply for_events_returns. }
    destruct (_play_sequence fuel cb s) as [[] s1|x s1|];
      [|discriminate|contradiction].
    destruct Hpass as ((_ & _ & Hlc & Hcl) & _).
    unfold bind at 1. unfold modify_self at 1.
    destruct s1 as [p1 [c1 cmds1 b1 tr1]].
    cbn [self env clock trace] in *.
    unfold bind at 1. cbn [self current_loop loop_count set_current_loop].
    set (p2 := set_current_loop (current_loop p1 + 1) p1).
    assert (Hs2 : NoPause.never_paused (st p2 c1 cmds1 b1 tr1)) by exact Hret.
    destruct (current_loop p1 + 1 <? loop_count p1)%Z.
    + fold (st p2 c1 cmds1 b1 tr1).
      destruct (NoPause_sleep Settle (1 # 10) p2 c1 cmds1 b1 tr1 Hs2)
        as (s3 & -> & Hs3 & (_ & _ & Hlc3 & Hcl3)).
      apply IH; [exact Hs3|]. rewrite Hlc3, Hcl3. simpl. lia.
    + apply IH; [exact Hs2|]. simpl. lia.
Qed.

(** X11. A player that is not paused and that nobody pauses comes to an
    end: whatever [stop] and [resume] calls are made, for every log, speed
    and loop count, [play] returns, with no fuel at all for the pause
    wait. *)
Theorem play_returns_when_never_paused (fuel : nat) (speed : Q) (loops : Z)
    (cb : bool) (s : pstate) :
  paused (self s) = false ->
  Forall (fun tc => snd tc <> Pause) (pending (env s)) ->
  exists s', play fuel speed loops cb s = Done tt s'.
Proof.
  intros Hp Hall. destruct s as [p [c cmds b tr]].
  cbn [self env pending] in Hp, Hall.
  fold (st p c cmds b tr). rewrite play_eq.
  set (s0 := st (fst (deliver c cmds (armed p speed loops))) c
               (snd (deliver c cmds (armed p speed loops))) b tr).
  assert (Hs0 : NoPause.never_paused s0).
  { apply (deliver_never_paused c cmds (armed p speed loops)); assumption. }
  pose proof (play_loop_returns fuel cb (Z.to_nat loops) s0 Hs0) as Hret.
  destruct (deliver_fields c cmds (armed p speed loops)) as (_ & _ & E3 & E4).
  destruct (play_loop fuel cb (Z.to_nat loops) s0) as [[] s1|x s1|].
  - now eexists.
  - now eexists.
  - exfalso. apply Hret; [|reflexivity].
    unfold s0. cbn [st self]. rewrite E3, E4. simpl. lia.
Qed.

(** *** A stop while the player is paused *)

Lemma pause_wait_stop p b ts : playing p = true -> paused p = true ->
  forall k fuel c tr,
  (S k <= fuel)%nat ->
  after_polls c k < ts -> ts <= after_polls c (S k) ->
  exists c',
    pause_wait fuel (st p c [(ts, Stop)] b tr)
    = Done tt (st (stop p) c' [] b
                 (tr ++ repeat (Sleep PausePoll (1 # 10)) (S k)))
    /\ c' == after_polls c (S k).
Proof.
  intros Hplay Hpause.
  induction k as [|k IH]; intros fuel c tr Hfuel Hlo Hhi;
    (destruct fuel as [|fuel]; [lia|]).
  - unfold pause_wait; fold pause_wait. cbn [st self].
    rewrite Hplay, Hpause. cbn [andb]. unfold bind.
    fold (st p c [(ts, Stop)] b tr). rewrite sleep_eq. simpl deliver.
    replace (Qle_bool ts (c + (1 # 10))) with true.
    + cbn [fst snd apply_command].
      assert (Hout : forall f, pause_wait f
                       (st (stop p) (c + (1 # 10)) [] b
                          (tr ++ [Sleep PausePoll (1 # 10)]))
                     = Done tt (st (stop p) (c + (1 # 10)) [] b
                                  (tr ++ [Sleep PausePoll (1 # 10)]))).
      { intros f. destruct f; unfold pause_wait; fold pause_wait;
          cbn [st self stop set_playing playing paused];
          now rewrite andb_false_r. }
      rewrite Hout.
      exists (c + (1 # 10)). split; [reflexivity|].
      rewrite after_polls_succ, after_polls_0. reflexivity.
    + symmetry. apply Qle_bool_iff.
      rewrite after_polls_succ, after_polls_0 in Hhi. exact Hhi.
  - unfold pause_wait; fold pause_wait. cbn [st self].
    rewrite Hplay, Hpause. cbn [andb]. unfold bind.
    fold (st p c [(ts, Stop)] b tr). rewrite sleep_eq. simpl deliver.
    pose proof (after_polls_ge (c + (1 # 10)) k) as Hge.
    rewrite after_polls_shift in Hge.
    replace (Qle_bool ts (c + (1 # 10))) with false.
    + cbn [fst snd].
      destruct (IH fuel (c + (1 # 10)) (tr ++ [Sleep PausePoll (1 # 10)]))
        as (c' & Hrun & Hc').
      * lia.
      * rewrite after_polls_shift. exact Hlo.
      * rewrite after_polls_shift. exact Hhi.
      * exists c'. rewrite Hrun. split.
        -- rewrite <- app_assoc. reflexivity.
        -- rewrite Hc'. apply after_polls_shift.
    + symmetry. destruct (Qle_bool ts (c + (1 # 10))) eqn:E; [|reflexivity].
      apply Qle_bool_iff in E. lra.
Qed.

(** X12. A stop while the player is paused ends the pass at the next poll
    of the pause wait, less than 100 ms after the stop, with no further
    event executed. *)
Theorem stop_while_paused_ends_at_next_poll (fuel : nat) (cb : bool)
    (t0 : Q) (i : nat) (e : event) (rest : list event) (p : player) (c : Q)
    (b : Backend) (tr : list obs) (ts : Q) (k : nat) :
  playing p = true -> paused p = true ->
  (S k <= fuel)%nat ->
  after_polls c k < ts -> ts <= after_polls c (S k) ->
  exists c',
    for_events fuel cb t0 i (e :: rest) (st p c [(ts, Stop)] b tr)
    = Done tt (st (stop p) c' [] b
                 (tr ++ repeat (Sleep PausePoll (1 # 10)) (S k)))
    /\ ts <= c' /\ c' < ts + (1 # 10).
Proof.
  intros Hplay Hpause Hfuel Hlo Hhi.
  destruct (pause_wait_stop p b ts Hplay Hpause k fuel c tr Hfuel Hlo Hhi)
    as (c' & Hwait & Hc').
  exists c'. split.
  - cbn [for_events]. cbn [st self]. rewrite Hplay. cbn [negb].
    unfold bind at 1. fold (st p c [(ts, Stop)] b tr). rewrite Hwait.
    reflexivity.
  - rewrite Hc'. split; [exact Hhi|]. rewrite after_polls_succ. lra.
Qed.

(** *** The schedule of a plain run *)

Lemma play_once_on_schedule fuel cb speed log t0 b :
  0 < speed ->
  StronglySorted (fun a b => ev_time a <= ev_time b) log ->
  Forall (fun e => 0 <= ev_time e) log ->
  exists s',
    play fuel speed 1 cb (fresh log t0 [] b) = Done tt s'
    /\ Forall2 (fun d e => snd d = e /\ fst d == t0 + ev_time e / speed)
         (dispatched (trace (env s'))) log.
Proof.
  intros Hspeed Hsorted Hpos.
  unfold fresh. fold (st (init log) t0 [] b []). rewrite play_eq.
  cbn [deliver fst snd]. change (Z.to_nat 1) with 1%nat.
  destruct (schedule_after_resume fuel cb t0 (armed (init log) speed 1) t0
              eq_refl eq_refl Hspeed log 0 t0 b [])
    as (c' & b' & new & Hrun & Htimes).
  { apply Qle_refl. }
  { apply Forall_forall. intros e _. apply Q.le_max_l. }
  { exact Hsorted. }
  assert (Hgoal : Forall2
                    (fun d e => snd d = e /\ fst d == t0 + ev_time e / speed)
                    (dispatched new) log).
  { clear Hrun. revert Hpos. induction Htimes as [|d e ds es [Hd Ht] _ IH];
      intros Hpos; [constructor|].
    pose proof (Forall_inv Hpos) as He.
    pose proof (Forall_inv_tail Hpos) as Hes.
    constructor; [|now apply IH].
    split; [exact Hd|]. rewrite Ht. cbn [armed speed_multiplier].
    apply Q.max_r.
    pose proof (target_monotone speed 0 (ev_time e) Hspeed He) as Hm.
    unfold Qdiv in Hm at 1. rewrite Qmult_0_l in Hm. lra. }
  cbn [play_loop st self armed current_loop loop_count playing].
  change ((0 <? 1)%Z && true) with true. cbv iota.
  unfold bind at 1. unfold _play_sequence. cbn [self events init].
  destruct log as [|e l].
  - simpl. eexists. split; [reflexivity|]. constructor.
  - unfold bind at 1. unfold now at 1.
    change (events (self (st (armed (init (e :: l)) speed 1) t0 [] b [])))
      with (e :: l).
    change (clock (env (st (armed (init (e :: l)) speed 1) t0 [] b [])))
      with t0.
    cbv iota. rewrite Hrun.
    simpl. eexists. split; [reflexivity|]. exact Hgoal.
Qed.

(** X13. A plain run keeps the schedule: with no command issued, one loop,
    a positive speed and a log in time order whose time stamps are not
    negative, the event with time stamp [t] is executed at [t / speed]
    after the start of [play]. *)
Theorem playback_keeps_schedule (fuel : nat) (cb : bool) (speed : Q)
    (log : list event) (t0 : Q) (b : Backend) :
  0 < speed ->
  StronglySorted (fun a b => ev_time a <= ev_time b) log ->
  Forall (fun e => 0 <= ev_time e) log ->
  exists s',
    play fuel speed 1 cb (fresh log t0 [] b) = Done tt s'
    /\ Forall2 (fun d e => snd d = e /\ fst d == t0 + ev_time e / speed)
         (dispatched (trace (env s'))) log.
Proof. apply play_once_on_schedule. Qed.

Section RecordThenReplay.
Variable str_key : SafeKeyParser.pykey -> string.
Variable pybutton : Type.
Variable str_button : pybutton -> string.

(** X14. Record, then replay. The log of a capture session whose clock
    readings do not decrease, replayed at speed 1 in one loop with no
    command issued, has each event executed at the offset from the start
    of [play] that its notification had from the start of the session. *)
Theorem replay_reproduces_recorded_offsets (r0 : EnhancedRecorder.recorder)
    (t0 : Q) (ns : list (Q * EnhancedRecorder.notification pybutton))
    (fuel : nat) (cb : bool) (tp : Q) (b : Backend) :
  StronglySorted (fun a b => fst a <= fst b) ns ->
  Forall (fun tn => t0 <= fst tn) ns ->
  exists r' s',
    EnhancedRecorder.handle_all str_key str_button ns
      (EnhancedRecorder.start t0 r0) = Ok r'
    /\ play fuel 1 1 cb (fresh (EnhancedRecorder.events r') tp [] b)
       = Done tt s'
    /\ Forall2 (fun d e => snd d = e /\ fst d - tp == ev_time e)
         (dispatched (trace (env s'))) (EnhancedRecorder.events r').
Proof.
  intros Hsorted Hafter.
  destruct (RecorderExtra.session_sorted_times str_key pybutton str_button
              r0 t0 ns Hsorted Hafter) as (r' & Hrec & Hs & Hp).
  destruct (play_once_on_schedule fuel cb 1 (EnhancedRecorder.events r') tp b)
    as (s' & Hplay & Htimes); [lra|exact Hs|exact Hp|].
  exists r', s'. split; [exact Hrec|]. split; [exact Hplay|].
  eapply Forall2_impl; [|exact Htimes].
  intros d e [Hd Ht]. split; [exact Hd|]. rewrite Ht. field.
Qed.

End RecordThenReplay.

End Player.

Import Sample SampleButtons.

Lemma play_returns_when_never_paused_witness :
  exists s',
    play 0 1 2 true
      (fresh four_ticks 0 [(1 # 2, Resume); (3 # 2, Stop)] untouched)
    = Done tt s'.
Proof.
  apply (play_returns_when_never_paused 0 1 2 true
           (fresh four_ticks 0 [(1 # 2, Resume); (3 # 2, Stop)] untouched)).
  - reflexivity.
  - repeat constructor; discriminate.
Defined.

(** The player paused at 1 s, [stop] called at 10.5 s. *)
Lemma stop_while_paused_ends_at_next_poll_witness :
  exists c',
    for_events 95 true 0 2 (tick 2 :: [tick 3])
      (st (set_paused true (armed (init four_ticks) 1 1)) 1
          [(21 # 2, Stop)] untouched [])
    = Done tt
        (st (stop (set_paused true (armed (init four_ticks) 1 1))) c' []
           untouched ([] ++ repeat (Sleep PausePoll (1 # 10)) 95))
    /\ 21 # 2 <= c' /\ c' < (21 # 2) + (1 # 10).
Proof.
  apply (stop_while_paused_ends_at_next_poll 95 true 0 2 (tick 2) [tick 3]
           (set_paused true (armed (init four_ticks) 1 1)) 1 untouched []
           (21 # 2) 94).
  - reflexivity.
  - reflexivity.
  - lia.
  - vm_compute. reflexivity.
  - vm_compute. discriminate.
Defined.

(** Two events one second apart at speed 2: the second is executed half a
    second after the start. *)
Lemma playback_keeps_schedule_witness :
  exists s',
    play 0 2 1 true (fresh [tick 0; tick 1] 0 [] untouched) = Done tt s'
    /\ Forall2 (fun d e => snd d = e /\ fst d == 0 + ev_time e / 2)
         (dispatched (trace (env s'))) [tick 0; tick 1].
Proof.
  apply (playback_keeps_schedule 0 true 2 [tick 0; tick 1] 0 untouched).
  - vm_compute. reflexivity.
  - repeat constructor; vm_compute; discriminate.
  - repeat constructor; vm_compute; discriminate.
Defined.

Lemma replay_reproduces_recorded_offsets_witness :
  exists r' s',
    EnhancedRecorder.handle_all str_key str_button3
      [(1, EnhancedRecorder.Click 10 20 BLeft true);
       (3, EnhancedRecorder.Press Capture.F9)]
      (EnhancedRecorder.start 0 EnhancedRecorder.init) = Ok r'
    /\ play 0 1 1 true (fresh (EnhancedRecorder.events r') 5 [] untouched)
       = Done tt s'
    /\ Forall2 (fun d e => snd d = e /\ fst d - 5 == ev_time e)
         (dispatched (trace (env s'))) (EnhancedRecorder.events r').
Proof.
  apply (replay_reproduces_recorded_offsets str_key button3 str_button3
           EnhancedRecorder.init 0
           [(1, EnhancedRecorder.Click 10 20 BLeft true);
            (3, EnhancedRecorder.Press Capture.F9)] 0 true 5 untouched).
  - repeat constructor; vm_compute; discriminate.
  - repeat constructor; vm_compute; discriminate.
Defined.

End PlayerExtra.

(** ** The display probe *)

Module DisplayExtra.
Import DisplayServerInfo.

(** X15. [get_info] never reports a session as both Wayland and X11; it
    reports neither when [XDG_SESSION_TYPE] is not set, the session type
    then being ["unknown"]; and recording is reported as supported exactly
    when both controllers can be made, an exception of either being
    caught. *)
Theorem display_info_flags (environ : string -> option string)
    (mouse_Controller keyboard_Controller : res unit) :
  let i := get_info mouse_Controller keyboard_Controller (init environ) in
  is_wayland i && is_x11 i = false
  /\ (environ "XDG_SESSION_TYPE" = None ->
      info_session_type i = "unknown"
      /\ is_wayland i = false /\ is_x11 i = false)
  /\ (supports_recording i = true
      <-> mouse_Controller = Ok tt /\ keyboard_Controller = Ok tt).
Proof.
  simpl. split; [|split].
  - destruct (String.eqb_spec
                (environ_get environ "XDG_SESSION_TYPE" "unknown") "wayland")
      as [->|_]; reflexivity.
  - intros H. unfold environ_get. rewrite H. repeat split.
  - unfold _supports_recording.
    destruct mouse_Controller as [[]|x], keyboard_Controller as [[]|y];
      simpl; split; try discriminate; try (intros [? ?]; discriminate);
      auto.
Qed.

Lemma display_info_flags_witness :
  let i := get_info (Ok tt) (Raise (LibraryError "no display"))
             (init (fun _ => None)) in
  is_wayland i && is_x11 i = false
  /\ (@None string = None ->
      info_session_type i = "unknown"
      /\ is_wayland i = false /\ is_x11 i = false)
  /\ (supports_recording i = true
      <-> @Ok unit tt = Ok tt
         /\ Raise (LibraryError "no display") = @Ok unit tt).
Proof.
  apply (display_info_flags (fun _ => None) (Ok tt)
           (Raise (LibraryError "no display"))).
Defined.

End DisplayExtra.

(** ** The standalone script against the player *)

Module ScriptExtra.
Import EnhancedPlayer Playback Persistence StandaloneScript PlayerSpec.
Local Open Scope list_scope.
Local Open Scope Q_scope.

Section Script.
Context {PL : Pynput} {CL : Controllers}.

Lemma calls_app (a b : list obs) : calls (a ++ b) = calls a ++ calls b.
Proof.
  induction a as [|o a IH]; simpl; [reflexivity|].
  destruct o; simpl; now rewrite IH.
Qed.

Lemma script_calls_app (a b : list script_obs) :
  script_calls (a ++ b) = script_calls a ++ script_calls b.
Proof.
  induction a as [|o a IH]; simpl; [reflexivity|].
  destruct o; simpl; now rewrite IH.
Qed.

Lemma calls_step_obs cb p t0 c i e b :
  calls (step_obs cb p t0 c i e b) = calls (exec_obs e b).
Proof.
  unfold step_obs. rewrite calls_app. simpl. rewrite calls_app.
  unfold callback_obs.
  destruct (Qltb 0 (delay_at p t0 c e)), cb; simpl;
    now rewrite ?app_nil_r.
Qed.

(** The player and the script on the same events, from the same state of
    the controllers. *)
Lemma script_against_for_events fuel cb t0 start p :
  playing p = true -> paused p = false ->
  Qeq_bool (speed_multiplier p) 0 = false ->
  forall evs i c b tr ss,
  s_backend ss = b ->
  exists c' b' new snew rest,
    for_events fuel cb t0 i evs (st p c [] b tr)
    = Done tt (st p c' [] b' (tr ++ new))
    /\ s_trace (fst (script_loop start evs ss)) = s_trace ss ++ snew
    /\ calls new = script_calls snew ++ rest
    /\ (snd (script_loop start evs ss) = None ->
        rest = [] /\ s_backend (fst (script_loop start evs ss)) = b').
Proof.
  intros Hplay Hpause Hspeed.
  induction evs as [|e l IH]; intros i c b tr ss Hb.
  - exists c, b, [], [], []. simpl. rewrite !app_nil_r. repeat split.
    exact Hb.
  - rewrite (for_events_quiet_step fuel cb t0 i e l p c b tr Hplay Hpause
               Hspeed).
    cbn [script_loop].
    set (ss1 := s_sleep (pymax0 (ev_time e - (s_clock ss - start))) ss).
    assert (Hb1 : s_backend ss1 = b) by exact Hb.
    assert (Htr1 : s_trace ss1
                   = s_trace ss
                     ++ [SSleep (pymax0 (ev_time e - (s_clock ss - start)))])
      by reflexivity.
    clearbody ss1.
    unfold script_dispatch. rewrite Hb1.
    (* the player goes on in every case *)
    destruct (for_events_quiet fuel cb t0 p Hplay Hpause Hspeed l (S i)
                (arrival p t0 c e) (exec_backend e b)
                (tr ++ step_obs cb p t0 c i e b))
      as (c0 & b0 & new0 & Hrun0 & _).
    unfold exec_obs, exec_backend in *.
    destruct (event_injection e) as [[inj|]|x] eqn:Hinj.
    + destruct (inject inj b) as [b1 r] eqn:Hcall. cbn [fst snd] in *.
      destruct r as [x|].
      * (* the controller raises: the script ends here *)
        exists c0, b0, (step_obs cb p t0 c i e b ++ new0),
          [SSleep (pymax0 (ev_time e - (s_clock ss - start))); SInjected inj],
          (calls new0).
        rewrite Hrun0, app_assoc. cbn [fst snd s_trace].
        split; [reflexivity|]. split; [|split].
        -- rewrite Htr1, <- app_assoc. reflexivity.
        -- rewrite calls_app, calls_step_obs. unfold exec_obs.
           rewrite Hinj, Hcall. reflexivity.
        -- discriminate.
      * destruct (IH (S i) (arrival p t0 c e) b1
                    (tr ++ step_obs cb p t0 c i e b)
                    {| s_clock := s_clock ss1; s_backend := b1;
                       s_trace := s_trace ss1 ++ [SInjected inj] |} eq_refl)
          as (c' & b' & new & snew & rest & Hrun & Hstr & Hcalls & Hend).
        exists c', b', (step_obs cb p t0 c i e b ++ new),
          ([SSleep (pymax0 (ev_time e - (s_clock ss - start)));
            SInjected inj] ++ snew), rest.
        rewrite Hrun, app_assoc. split; [reflexivity|]. split; [|split].
        -- rewrite Hstr. cbn [s_trace]. rewrite Htr1, <- !app_assoc.
           reflexivity.
        -- rewrite calls_app, calls_step_obs. unfold exec_obs.
           rewrite Hinj, Hcall. cbn [snd]. rewrite script_calls_app.
           simpl. now rewrite Hcalls.
        -- exact Hend.
    + destruct (IH (S i) (arrival p t0 c e) b
                  (tr ++ step_obs cb p t0 c i e b) ss1 Hb1)
        as (c' & b' & new & snew & rest & Hrun & Hstr & Hcalls & Hend).
      exists c', b', (step_obs cb p t0 c i e b ++ new),
        ([SSleep (pymax0 (ev_time e - (s_clock ss - start)))] ++ snew), rest.
      rewrite Hrun, app_assoc. split; [reflexivity|]. split; [|split].
      * rewrite Hstr, Htr1, <- !app_assoc. reflexivity.
      * rewrite calls_app, calls_step_obs. unfold exec_obs. rewrite Hinj.
        simpl. exact Hcalls.
      * exact Hend.
    + exists c0, b0, (step_obs cb p t0 c i e b ++ new0),
        [SSleep (pymax0 (ev_time e - (s_clock ss - start)))], (calls new0).
      rewrite Hrun0, app_assoc. cbn [fst snd].
      split; [reflexivity|]. split; [exact Htr1|]. split; [|discriminate].
      rewrite calls_app, calls_step_obs. unfold exec_obs. rewrite Hinj.
      reflexivity.
Qed.

Lemma play_once_unfold fuel cb speed e l t0 b c' b' new :
  for_events fuel cb t0 0 (e :: l)
    (st (armed (init (e :: l)) speed 1) t0 [] b [])
  = Done tt (st (armed (init (e :: l)) speed 1) c' [] b' ([] ++ new)) ->
  play fuel speed 1 cb (fresh (e :: l) t0 [] b)
  = Done tt
      (st (set_playing false (set_current_loop 1 (armed (init (e :: l)) speed 1)))
         c' [] b' new).
Proof.
  intros Hrun.
  unfold fresh. fold (st (init (e :: l)) t0 [] b []). rewrite play_eq.
  cbn [deliver fst snd]. change (Z.to_nat 1) with 1%nat.
  cbn [play_loop st self armed current_loop loop_count playing].
  change ((0 <? 1)%Z && true) with true. cbv iota.
  unfold bind at 1. unfold _play_sequence. cbn [self events init].
  unfold bind at 1. unfold now at 1.
  change (events (self (st (armed (init (e :: l)) speed 1) t0 [] b [])))
    with (e :: l).
  change (clock (env (st (armed (init (e :: l)) speed 1) t0 [] b [])))
    with t0.
  cbv iota. rewrite Hrun. reflexivity.
Qed.

(** [play] at speed 1 with one loop, and [play] of the script on the same
    events. *)
Lemma script_play_against_play (fuel : nat) (cb : bool)
    (log : list event) (t0 t1 : Q) (b : Backend) :
  let script := script_play log
                  {| s_clock := t1; s_backend := b; s_trace := [] |} in
  exists s' rest,
    play fuel 1 1 cb (fresh log t0 [] b) = Done tt s'
    /\ calls (trace (env s')) = script_calls (s_trace (fst script)) ++ rest
    /\ (snd script = None ->
        rest = [] /\ s_backend (fst script) = backend (env s')).
Proof.
  destruct log as [|e l].
  - simpl. eexists. exists []. split; [reflexivity|]. repeat split.
  - destruct (script_against_for_events fuel cb t0 t1
                (armed (init (e :: l)) 1 1) eq_refl eq_refl eq_refl
                (e :: l) 0%nat t0 b []
                (s_emit (SPrint "Playing macro...")
                   {| s_clock := t1; s_backend := b; s_trace := [] |})
                eq_refl)
      as (c' & b' & new & snew & rest & Hrun & Hstr & Hcalls & Hend).
    rewrite (play_once_unfold fuel cb 1 e l t0 b c' b' new Hrun).
    eexists. exists rest. split; [reflexivity|].
    cbn [st env trace backend]. unfold script_play.
    change (s_clock (s_emit (SPrint "Playing macro...")
                       {| s_clock := t1; s_backend := b; s_trace := [] |}))
      with t1.
    destruct (script_loop t1 (e :: l)
                (s_emit (SPrint "Playing macro...")
                   {| s_clock := t1; s_backend := b; s_trace := [] |}))
      as [ss' [x|]]; cbn [fst snd] in *.
    + split; [|discriminate]. rewrite Hstr, Hcalls. simpl. reflexivity.
    + split.
      * cbn [s_emit s_trace]. rewrite Hstr, Hcalls. simpl.
        rewrite !script_calls_app. simpl. now rewrite app_nil_r.
      * intros _. cbn [s_emit s_backend]. now apply Hend.
Qed.

End Script.

(** *** The event array, read by Python *)

Lemma python_literal_cons (a : ascii) (t : string) :
  astral_lead a = false ->
  python_literal (String a t) = String a (python_literal t).
Proof. intros H. cbn [python_literal]. now rewrite H. Qed.

Lemma python_literal_bmp (s : string) :
  bmp s = true -> python_literal s = s.
Proof.
  unfold bmp. induction s as [|a t IH]; [reflexivity|].
  cbn [list_ascii_of_string forallb]. intros H.
  apply andb_true_iff in H. destruct H as [Ha Ht].
  apply negb_true_iff in Ha.
  now rewrite (python_literal_cons a t Ha), (IH Ht).
Qed.

Lemma py_eval_events (log : list event) :
  py_eval (json_dump (events_py log))
  = match eval_list (map (fun e => py_eval (json_dump (event_py e))) log) with
    | Value vs => Value (PyList vs)
    | NameError name => NameError name
    end.
Proof.
  unfold events_py. cbn [json_dump py_eval]. now rewrite !map_map.
Qed.

Lemma py_eval_event (e : event) :
  py_eval (json_dump (event_py e))
  = match read_data (ev_data e) with
    | Value d =>
        Value (PyDict [("type", PyString (python_literal (ev_type e)));
                       ("data", PyDict d);
                       ("time", PyFloat (ev_time e))])
    | NameError name => NameError name
    end.
Proof.
  unfold event_py, read_data.
  cbn [json_dump map fst snd py_eval eval_dict].
  rewrite !map_map. cbn [fst snd].
  change (python_literal "type") with "type".
  change (python_literal "data") with "data".
  change (python_literal "time") with "time".
  destruct (eval_dict _); reflexivity.
Qed.

Lemma read_data_literal (d : list (string * value)) :
  forallb (fun kv => bmp (fst kv) && literal_value (snd kv)) d = true ->
  read_data d = Value (map (fun kv => (fst kv, value_py (snd kv))) d).
Proof.
  unfold read_data. induction d as [|[k v] d IH]; [reflexivity|].
  cbn [forallb map fst snd]. intros H.
  apply andb_true_iff in H. destruct H as [Hkv Hd].
  apply andb_true_iff in Hkv. destruct Hkv as [Hk Hv].
  rewrite (python_literal_bmp k Hk).
  destruct v as [z|q|p|s]; cbn [value_py json_dump py_eval eval_dict];
    try discriminate; rewrite (IH Hd); try reflexivity.
  cbn [literal_value] in Hv. now rewrite (python_literal_bmp s Hv).
Qed.

Lemma py_eval_literal_events (log : list event) :
  forallb literal_event log = true ->
  py_eval (json_dump (events_py log)) = Value (events_py log).
Proof.
  intros H. rewrite py_eval_events. unfold events_py.
  assert (E : eval_list (map (fun e => py_eval (json_dump (event_py e))) log)
              = Value (map event_py log)).
  { induction log as [|e l IH]; [reflexivity|].
    cbn [forallb] in H. apply andb_true_iff in H. destruct H as [He Hl].
    unfold literal_event in He. apply andb_true_iff in He.
    destruct He as [Hty Hd].
    cbn [map eval_list]. rewrite py_eval_event, (read_data_literal _ Hd).
    rewrite (python_literal_bmp _ Hty), (IH Hl). reflexivity. }
  now rewrite E.
Qed.

Lemma read_data_bool (d : list (string * value)) (k : string) (p : bool) :
  In (k, VBool p) d -> exists name, read_data d = NameError name.
Proof.
  unfold read_data. induction d as [|[k' v] d IH]; [intros []|].
  intros [H|H].
  - injection H as -> ->. cbn [map fst snd value_py json_dump py_eval eval_dict].
    now eexists.
  - destruct (IH H) as (name & E). cbn [map fst snd eval_dict].
    destruct (py_eval (json_dump (value_py v))); [|now eexists].
    rewrite E. now eexists.
Qed.

Lemma py_eval_events_bool (log : list event) (e : event) (k : string)
    (p : bool) :
  In e log -> In (k, VBool p) (ev_data e) ->
  exists name, py_eval (json_dump (events_py log)) = NameError name.
Proof.
  intros He Hk. rewrite py_eval_events.
  assert (E : exists name,
             eval_list (map (fun e => py_eval (json_dump (event_py e))) log)
             = NameError name).
  { induction log as [|e' l IH]; [destruct He|].
    cbn [map eval_list]. destruct He as [->|He].
    - rewrite py_eval_event.
      destruct (read_data_bool _ k p Hk) as (name & ->). now eexists.
    - destruct (IH He) as (name & E).
      destruct (py_eval (json_dump (event_py e'))); [|now eexists].
      rewrite E. now eexists. }
  destruct E as (name & ->). now eexists.
Qed.

(** The only names that the text of a log has are [true] and [false]. *)
Lemma read_data_name (d : list (string * value)) (name : string) :
  read_data d = NameError name -> name = "true" \/ name = "false".
Proof.
  unfold read_data. induction d as [|[k v] d IH]; [discriminate|].
  cbn [map fst snd eval_dict].
  destruct v as [z|q|p|s]; cbn [value_py json_dump py_eval];
    try (destruct (eval_dict _) eqn:E; [discriminate|];
         intros H; injection H as ->; now apply IH).
  intros H. injection H as <-. destruct p; [now left|now right].
Qed.

Lemma py_eval_events_name (log : list event) (name : string) :
  py_eval (json_dump (events_py log)) = NameError name ->
  name = "true" \/ name = "false".
Proof.
  rewrite py_eval_events.
  assert (E : forall n,
             eval_list (map (fun e => py_eval (json_dump (event_py e))) log)
             = NameError n -> n = "true" \/ n = "false").
  { induction log as [|e l IH]; [discriminate|].
    intros n. cbn [map eval_list]. rewrite py_eval_event.
    destruct (read_data (ev_data e)) as [d|n'] eqn:Ed.
    - destruct (eval_list _) eqn:El; [discriminate|].
      intros H. injection H as ->. now apply IH.
    - intros H. injection H as <-. now apply (read_data_name _ _ Ed). }
  destruct (eval_list _) as [vs|n]; [discriminate|].
  intros H. injection H as <-. now apply E.
Qed.

Section Compiled.
Context {PL : Pynput} {CL : Controllers}.


End Compiled.

Import Sample SampleButtons.


End ScriptExtra.
